(** * mmorpg-server: connection manager and load balancer

    A shallow embedding of

      - [src/agents/connection_manager/connection_manager.cpp]
        (with [include/agents/connection_manager/connection_manager.hpp] and
        the metric sink of [src/common/base_agent.cpp]), and
      - [src/network/load_balancer.cpp]
        (with [include/network/load_balancer.hpp]),

    and of the connection registry of [src/network/websocket_handler.cpp]
    (with [include/network/websocket_handler.hpp]), followed by the
    properties of the components.

    Conventions of the embedding.

      - [uint32_t] counters are integers in [Z]; every [fetch_add] and
        [fetch_sub] writes its wrap-around modulo [2^32] out ([u32]).
      - [double] is the kernel's binary64 type [float]; an integer that C++
        converts to [double] goes through [to_double].
      - A clock reading ([high_resolution_clock::now()],
        [steady_clock::now()]) is an argument [now : Z] of the operation that
        takes it, counted in clock ticks (nanoseconds).  The inactivity
        sweep compares signed 64-bit tick counts, with their wrap-around
        written out ([int64]); the balancer's health check compares readings
        that are far from the ends of that range.
      - [std::unordered_map] is [gmap]; [std::vector] is [list].
      - Every method is a function from the object's state to its result and
        the object's new state; a mutex-protected method body is one atomic
        step.  Log lines are not part of the state. *)

From Stdlib Require Import ZArith Floats Uint63.
From stdpp Require Import gmap strings list fin_maps pretty.

Set Warnings "-inexact-float".
Local Open Scope Z_scope.

(** ** Machine arithmetic *)

Definition UINT32_MAX : Z := 4294967295.

(** The value a [uint32_t] holds after an arithmetic result [z]. *)
Definition u32 (z : Z) : Z := z mod 2 ^ 32.

(** The value a signed 64-bit tick count holds after an arithmetic result
    [z], and the results that need no wrapping. *)
Definition int64 (z : Z) : Z := (z + 2 ^ 63) mod 2 ^ 64 - 2 ^ 63.

Definition fits_int64 (z : Z) : Prop := - 2 ^ 63 <= z < 2 ^ 63.

(** [static_cast<double>] of an unsigned integer. *)
Definition to_double (n : Z) : float := PrimFloat.of_uint63 (Uint63.of_Z n).

(** ** Connection manager *)

Module ConnectionManager.

(** [struct ConnectionInfo]. *)
Record ConnectionInfo := mkConnectionInfo {
  connection_id : string;
  user_id : string;
  ip_address : string;
  connected_at : Z;
  last_activity : Z;
  is_authenticated : bool;
  bytes_sent : Z;
  bytes_received : Z
}.

(** The data members of [ConnectionManagerAgent] that its connection API
    reads and writes; [metrics_] is the member inherited from [BaseAgent]. *)
Record ConnectionManagerAgent := mkAgent {
  max_connections_ : Z;
  current_connections_ : Z;
  connections_ : gmap string ConnectionInfo;
  metrics_ : gmap string float
}.

(** The agent as its constructor leaves it. *)
Definition new_agent (max_connections : Z) : ConnectionManagerAgent :=
  {| max_connections_ := max_connections;
     current_connections_ := 0;
     connections_ := ∅;
     metrics_ := ∅ |}.

(** [BaseAgent::update_metric]: [metrics_[key] = value]. *)
Definition update_metric (key : string) (value : float)
    (a : ConnectionManagerAgent) : ConnectionManagerAgent :=
  {| max_connections_ := max_connections_ a;
     current_connections_ := current_connections_ a;
     connections_ := connections_ a;
     metrics_ := <[key := value]> (metrics_ a) |}.

Definition set_connections (c : gmap string ConnectionInfo) (n : Z)
    (a : ConnectionManagerAgent) : ConnectionManagerAgent :=
  {| max_connections_ := max_connections_ a;
     current_connections_ := n;
     connections_ := c;
     metrics_ := metrics_ a |}.

(** The record [handle_new_connection] builds before it takes the lock. *)
Definition fresh_info (now : Z) (cid ip : string) : ConnectionInfo :=
  {| connection_id := cid;
     user_id := "";
     ip_address := ip;
     connected_at := now;
     last_activity := now;
     is_authenticated := false;
     bytes_sent := 0;
     bytes_received := 0 |}.

(** [ConnectionManagerAgent::handle_new_connection]. *)
Definition handle_new_connection (now : Z) (cid ip : string)
    (a : ConnectionManagerAgent) : bool * ConnectionManagerAgent :=
  if max_connections_ a <=? current_connections_ a then
    (false, update_metric "connection_rejected" 1%float a)
  else
    let a1 := set_connections (<[cid := fresh_info now cid ip]> (connections_ a))
                              (u32 (current_connections_ a + 1)) a in
    let a2 := update_metric "connections_total"
                            (to_double (current_connections_ a1)) a1 in
    (true, update_metric "connection_accepted" 1%float a2).

(** [ConnectionManagerAgent::handle_disconnection]. *)
Definition handle_disconnection (cid : string)
    (a : ConnectionManagerAgent) : ConnectionManagerAgent :=
  match connections_ a !! cid with
  | Some _ =>
      let a1 := set_connections (delete cid (connections_ a))
                                (u32 (current_connections_ a - 1)) a in
      let a2 := update_metric "connections_total"
                              (to_double (current_connections_ a1)) a1 in
      update_metric "connection_disconnected" 1%float a2
  | None => a
  end.

(** [std::count_if(connections_.begin(), connections_.end(), ...)] with the
    predicate [pair.second->is_authenticated]. *)
Definition count_authenticated (c : gmap string ConnectionInfo) : Z :=
  Z.of_nat (size (filter (λ kv, is_authenticated kv.2 = true) c)).

Definition set_authenticated (uid : string) (r : ConnectionInfo) : ConnectionInfo :=
  {| connection_id := connection_id r;
     user_id := uid;
     ip_address := ip_address r;
     connected_at := connected_at r;
     last_activity := last_activity r;
     is_authenticated := true;
     bytes_sent := bytes_sent r;
     bytes_received := bytes_received r |}.

(** [ConnectionManagerAgent::authenticate_connection]. *)
Definition authenticate_connection (cid uid : string)
    (a : ConnectionManagerAgent) : ConnectionManagerAgent :=
  match connections_ a !! cid with
  | Some r =>
      let a1 := set_connections (<[cid := set_authenticated uid r]> (connections_ a))
                                (current_connections_ a) a in
      update_metric "authenticated_connections"
                    (to_double (count_authenticated (connections_ a1))) a1
  | None => a
  end.

Definition set_last_activity (now : Z) (r : ConnectionInfo) : ConnectionInfo :=
  {| connection_id := connection_id r;
     user_id := user_id r;
     ip_address := ip_address r;
     connected_at := connected_at r;
     last_activity := now;
     is_authenticated := is_authenticated r;
     bytes_sent := bytes_sent r;
     bytes_received := bytes_received r |}.

(** [ConnectionManagerAgent::update_activity]. *)
Definition update_activity (now : Z) (cid : string)
    (a : ConnectionManagerAgent) : ConnectionManagerAgent :=
  match connections_ a !! cid with
  | Some r =>
      set_connections (<[cid := set_last_activity now r]> (connections_ a))
                      (current_connections_ a) a
  | None => a
  end.

(** [ConnectionManagerAgent::get_connection_stats]. *)
Definition get_connection_stats (a : ConnectionManagerAgent) : gmap string float :=
  let total_connections := current_connections_ a in
  let authenticated_connections := u32 (count_authenticated (connections_ a)) in
  <["total_connections" := to_double total_connections]>
  (<["authenticated_connections" := to_double authenticated_connections]>
  (<["max_connections" := to_double (max_connections_ a)]>
  (<["connection_utilization" :=
       (to_double total_connections / to_double (max_connections_ a))%float]> ∅))).

(** [ConnectionManagerAgent::get_connection_info]. *)
Definition get_connection_info (cid : string)
    (a : ConnectionManagerAgent) : option ConnectionInfo :=
  connections_ a !! cid.

(** Ticks of [high_resolution_clock] in one second: the clock counts
    nanoseconds, and [inactive_time > timeout] compares in that unit. *)
Definition ticks_per_second : Z := 1000000000.

(** The test of the sweep's first loop: [now - info->last_activity > timeout].
    The difference is a count of ticks; [timeout], a count of seconds, is
    converted to ticks for the comparison.  Both are 64-bit signed counts. *)
Definition inactive (now timeout : Z) (r : ConnectionInfo) : bool :=
  int64 (timeout * ticks_per_second) <? int64 (now - last_activity r).

(** The ids the first phase of the sweep collects, in the map's iteration
    order. *)
Definition collect_inactive (now timeout : Z)
    (c : gmap string ConnectionInfo) : list string :=
  (map_to_list (filter (λ kv, inactive now timeout kv.2 = true) c)).*1.

(** [ConnectionManagerAgent::cleanup_inactive_connections]. *)
Definition cleanup_inactive_connections (now timeout : Z)
    (a : ConnectionManagerAgent) : ConnectionManagerAgent :=
  let to_remove := collect_inactive now timeout (connections_ a) in
  let a1 := foldl (λ acc cid, handle_disconnection cid acc) a to_remove in
  match to_remove with
  | [] => a1
  | _ => update_metric "connections_cleaned"
                       (to_double (Z.of_nat (length to_remove))) a1
  end.

(** [ConnectionManagerAgent::stop], on the members modelled here. *)
Definition stop (a : ConnectionManagerAgent) : ConnectionManagerAgent :=
  set_connections ∅ 0 a.

(** A call of the connection API, and a run of calls in order. *)
Inductive Call :=
  | Admit (now : Z) (cid ip : string)
  | Remove (cid : string)
  | Authenticate (cid uid : string)
  | Touch (now : Z) (cid : string)
  | Sweep (now timeout : Z).

Definition call (c : Call) (a : ConnectionManagerAgent) : ConnectionManagerAgent :=
  match c with
  | Admit now cid ip => (handle_new_connection now cid ip a).2
  | Remove cid => handle_disconnection cid a
  | Authenticate cid uid => authenticate_connection cid uid a
  | Touch now cid => update_activity now cid a
  | Sweep now timeout => cleanup_inactive_connections now timeout a
  end.

Definition run (cs : list Call) (a : ConnectionManagerAgent) : ConnectionManagerAgent :=
  foldl (λ acc c, call c acc) a cs.

(** The registry invariant: the admitted counter is the registry's size (and
    a value of its type). *)
Definition counter_is_size (a : ConnectionManagerAgent) : Prop :=
  current_connections_ a = Z.of_nat (size (connections_ a))
  ∧ 0 <= current_connections_ a <= UINT32_MAX.

(** A run in which no admission names an id that is live when it is made. *)
Fixpoint admissions_fresh (cs : list Call) (a : ConnectionManagerAgent) : Prop :=
  match cs with
  | [] => True
  | c :: cs' =>
      match c with
      | Admit _ cid _ => connections_ a !! cid = None
      | _ => True
      end
      ∧ admissions_fresh cs' (call c a)
  end.

End ConnectionManager.

(** ** Load balancer *)

Module LoadBalancer.

(** [struct ServerNode]. *)
Record ServerNode := mkServerNode {
  id : string;
  host : string;
  port : Z;
  current_connections : Z;
  max_connections : Z;
  cpu_usage : float;
  memory_usage : float;
  is_healthy : bool;
  last_health_check : Z
}.

(** [ServerNode::get_load_score]. *)
Definition get_load_score (s : ServerNode) : float :=
  let connection_ratio :=
    (to_double (current_connections s) / to_double (max_connections s))%float in
  let cpu_weight := (cpu_usage s * 0.4)%float in
  let memory_weight := (memory_usage s * 0.3)%float in
  let connection_weight := (connection_ratio * 0.3)%float in
  (cpu_weight + memory_weight + connection_weight)%float.

(** [ServerNode::can_accept_connection]. *)
Definition can_accept_connection (s : ServerNode) : bool :=
  is_healthy s
  && (current_connections s <? max_connections s)
  && (get_load_score s <? 0.8)%float.

(** [enum class LoadBalancingStrategy]. *)
Inductive LoadBalancingStrategy :=
  | ROUND_ROBIN
  | LEAST_CONNECTIONS
  | LEAST_LOAD
  | WEIGHTED_ROUND_ROBIN
  | IP_HASH.

(** The data members of [LoadBalancer] that selection, assignment and the
    status methods read and write. *)
Record LoadBalancer := mkLoadBalancer {
  strategy_ : LoadBalancingStrategy;
  servers_ : list ServerNode;
  round_robin_index_ : Z;
  connection_to_server_ : gmap string string
}.

(** The balancer as its constructor leaves it. *)
Definition new_balancer (strategy : LoadBalancingStrategy) : LoadBalancer :=
  {| strategy_ := strategy;
     servers_ := [];
     round_robin_index_ := 0;
     connection_to_server_ := ∅ |}.

Definition set_servers (l : list ServerNode) (lb : LoadBalancer) : LoadBalancer :=
  {| strategy_ := strategy_ lb;
     servers_ := l;
     round_robin_index_ := round_robin_index_ lb;
     connection_to_server_ := connection_to_server_ lb |}.

Definition set_connection_to_server (m : gmap string string)
    (lb : LoadBalancer) : LoadBalancer :=
  {| strategy_ := strategy_ lb;
     servers_ := servers_ lb;
     round_robin_index_ := round_robin_index_ lb;
     connection_to_server_ := m |}.

Definition set_round_robin_index (i : Z) (lb : LoadBalancer) : LoadBalancer :=
  {| strategy_ := strategy_ lb;
     servers_ := servers_ lb;
     round_robin_index_ := i;
     connection_to_server_ := connection_to_server_ lb |}.

(** [LoadBalancer::set_strategy]. *)
Definition set_strategy (strategy : LoadBalancingStrategy)
    (lb : LoadBalancer) : LoadBalancer :=
  {| strategy_ := strategy;
     servers_ := servers_ lb;
     round_robin_index_ := round_robin_index_ lb;
     connection_to_server_ := connection_to_server_ lb |}.

Definition set_current_connections (n : Z) (s : ServerNode) : ServerNode :=
  {| id := id s; host := host s; port := port s;
     current_connections := n;
     max_connections := max_connections s;
     cpu_usage := cpu_usage s; memory_usage := memory_usage s;
     is_healthy := is_healthy s;
     last_health_check := last_health_check s |}.

Definition set_is_healthy (b : bool) (s : ServerNode) : ServerNode :=
  {| id := id s; host := host s; port := port s;
     current_connections := current_connections s;
     max_connections := max_connections s;
     cpu_usage := cpu_usage s; memory_usage := memory_usage s;
     is_healthy := b;
     last_health_check := last_health_check s |}.

Definition set_status (now : Z) (cpu mem : float) (healthy : bool)
    (s : ServerNode) : ServerNode :=
  {| id := id s; host := host s; port := port s;
     current_connections := current_connections s;
     max_connections := max_connections s;
     cpu_usage := cpu; memory_usage := mem;
     is_healthy := healthy;
     last_health_check := now |}.

(** The [std::find_if] of every method that looks a server up by id: the
    first node of [servers_] with that id, with its index. *)
Definition find_server (server_id : string)
    (l : list ServerNode) : option (nat * ServerNode) :=
  list_find (λ s, id s = server_id) l.

(** [LoadBalancer::add_server]. *)
Definition add_server (now : Z) (sid shost : string) (sport max_conn : Z)
    (lb : LoadBalancer) : LoadBalancer :=
  let server :=
    {| id := sid; host := shost; port := sport;
       current_connections := 0;
       max_connections := max_conn;
       cpu_usage := 0%float; memory_usage := 0%float;
       is_healthy := true;
       last_health_check := now |} in
  set_servers (servers_ lb ++ [server]) lb.

(** [LoadBalancer::remove_server]. *)
Definition remove_server (sid : string) (lb : LoadBalancer) : LoadBalancer :=
  match find_server sid (servers_ lb) with
  | Some (i, _) => set_servers (delete i (servers_ lb)) lb
  | None => lb
  end.

(** [servers_[index]->id].  Every index the selection methods compute is a
    remainder modulo [servers_.size()], so the [None] branch is never taken
    (see [id_at_in_range]). *)
Definition id_at (l : list ServerNode) (index : Z) : string :=
  match l !! Z.to_nat index with
  | Some s => id s
  | None => ""
  end.

(** [std::min_element(first, last, comp)]: the first smallest element. *)
Fixpoint min_element_from {A : Type} (comp : A → A → bool)
    (smallest : A) (l : list A) : A :=
  match l with
  | [] => smallest
  | x :: l' => min_element_from comp (if comp x smallest then x else smallest) l'
  end.

Definition min_element {A : Type} (comp : A → A → bool) (l : list A) : option A :=
  match l with
  | [] => None
  | x :: l' => Some (min_element_from comp x l')
  end.

Section Selection.

(** [std::hash<std::string>], reduced to its value as a [size_t]; and one
    draw of [std::uniform_real_distribution<>(0.0, total_weight)] from the
    generator, as a function of [total_weight]. *)
Variable hasher : string → Z.
Variable uniform_real : float → float.

(** [LoadBalancer::select_round_robin]. *)
Definition select_round_robin (lb : LoadBalancer) : string * LoadBalancer :=
  match servers_ lb with
  | [] => ("", lb)
  | _ =>
      let index := u32 (round_robin_index_ lb mod Z.of_nat (length (servers_ lb))) in
      (id_at (servers_ lb) index,
       set_round_robin_index (u32 (round_robin_index_ lb + 1)) lb)
  end.

(** [LoadBalancer::select_least_connections]. *)
Definition select_least_connections (lb : LoadBalancer) : string :=
  match min_element (λ a b, current_connections a <? current_connections b)
                    (servers_ lb) with
  | None => ""
  | Some min_server => id min_server
  end.

(** [LoadBalancer::select_least_load]. *)
Definition select_least_load (lb : LoadBalancer) : string :=
  match min_element (λ a b, (get_load_score a <? get_load_score b)%float)
                    (servers_ lb) with
  | None => ""
  | Some min_server => id min_server
  end.

(** The weight of a node in the weighted draw. *)
Definition weight (s : ServerNode) : float :=
  (1 / to_double (max_connections s))%float.

(** The second loop of [select_weighted_round_robin]. *)
Fixpoint pick_weighted (random_value current_weight : float)
    (l : list ServerNode) : option string :=
  match l with
  | [] => None
  | s :: l' =>
      let current_weight := (current_weight + weight s)%float in
      if (random_value <=? current_weight)%float then Some (id s)
      else pick_weighted random_value current_weight l'
  end.

(** [LoadBalancer::select_weighted_round_robin]. *)
Definition select_weighted_round_robin (lb : LoadBalancer) : string :=
  match servers_ lb with
  | [] => ""
  | _ =>
      let total_weight :=
        foldl (λ acc s, (acc + weight s)%float) 0%float (servers_ lb) in
      let random_value := uniform_real total_weight in
      match pick_weighted random_value 0%float (servers_ lb) with
      | Some sid => sid
      | None => from_option id "" (last (servers_ lb))
      end
  end.

(** [LoadBalancer::select_ip_hash]. *)
Definition select_ip_hash (client_ip : string) (lb : LoadBalancer) : string :=
  match servers_ lb with
  | [] => ""
  | _ =>
      let hash_value := hasher client_ip in
      let index := u32 (hash_value mod Z.of_nat (length (servers_ lb))) in
      id_at (servers_ lb) index
  end.

(** The local [healthy_servers] of [select_server]. *)
Definition healthy_servers (lb : LoadBalancer) : list ServerNode :=
  filter (λ s, is_healthy s = true) (servers_ lb).

(** [LoadBalancer::select_server].  The [default] label of its [switch] is
    not reached by any of the five enumerators. *)
Definition select_server (client_ip : string)
    (lb : LoadBalancer) : string * LoadBalancer :=
  match servers_ lb with
  | [] => ("", lb)
  | _ =>
      match healthy_servers lb with
      | [] => ("", lb)
      | _ =>
          match strategy_ lb with
          | ROUND_ROBIN => select_round_robin lb
          | LEAST_CONNECTIONS => (select_least_connections lb, lb)
          | LEAST_LOAD => (select_least_load lb, lb)
          | WEIGHTED_ROUND_ROBIN => (select_weighted_round_robin lb, lb)
          | IP_HASH => (select_ip_hash client_ip lb, lb)
          end
      end
  end.

End Selection.

(** [LoadBalancer::assign_connection]. *)
Definition assign_connection (server_id cid : string)
    (lb : LoadBalancer) : bool * LoadBalancer :=
  match find_server server_id (servers_ lb) with
  | None => (false, lb)
  | Some (i, server) =>
      if negb (can_accept_connection server) then (false, lb)
      else
        let server' :=
          set_current_connections (u32 (current_connections server + 1)) server in
        (true,
         set_connection_to_server
           (<[cid := server_id]> (connection_to_server_ lb))
           (set_servers (<[i := server']> (servers_ lb)) lb))
  end.

(** [LoadBalancer::release_connection]. *)
Definition release_connection (server_id cid : string)
    (lb : LoadBalancer) : LoadBalancer :=
  let lb1 :=
    match find_server server_id (servers_ lb) with
    | Some (i, server) =>
        let server' :=
          set_current_connections (u32 (current_connections server - 1)) server in
        set_servers (<[i := server']> (servers_ lb)) lb
    | None => lb
    end in
  set_connection_to_server (delete cid (connection_to_server_ lb1)) lb1.

(** [LoadBalancer::update_server_status]. *)
Definition update_server_status (now : Z) (server_id : string)
    (cpu mem : float) (healthy : bool) (lb : LoadBalancer) : LoadBalancer :=
  match find_server server_id (servers_ lb) with
  | Some (i, server) =>
      set_servers (<[i := set_status now cpu mem healthy server]> (servers_ lb)) lb
  | None => lb
  end.

(** [LoadBalancer::get_server]. *)
Definition get_server (server_id : string) (lb : LoadBalancer) : option ServerNode :=
  snd <$> find_server server_id (servers_ lb).

(** [LoadBalancer::perform_health_check]; [steady_clock] counts nanoseconds. *)
Definition perform_health_check (now : Z) (lb : LoadBalancer) : LoadBalancer :=
  set_servers
    ((λ s, if 5 * 60 * 1000000000 <? now - last_health_check s
           then set_is_healthy false s else s) <$> servers_ lb)
    lb.

End LoadBalancer.

(** ** The metric reader and the capacity bound *)

Module BaseAgent.
Import ConnectionManager.

(** [BaseAgent::get_metric]: the stored value, or [default_value] when the
    key has never been written. *)
Definition get_metric (key : string) (default_value : float)
    (a : ConnectionManagerAgent) : float :=
  default default_value (metrics_ a !! key).

(** The registry holds no more records than the counter says, and the counter
    is within the configured maximum. *)
Definition within_capacity (a : ConnectionManagerAgent) : Prop :=
  Z.of_nat (size (connections_ a)) <= current_connections_ a
  ∧ current_connections_ a <= max_connections_ a.

End BaseAgent.

(** ** WebSocket connection

    The socket and the callbacks a connection holds are outside the object:
    a method returns the object's new state and the list of what it handed
    to them, in call order.  A [std::function] member is the flag of whether
    it holds a target; calling it is an effect. *)

Module WebSocketConnection.

(** [beast::error_code], as far as the code tells values apart. *)
Inductive error_code :=
  | ec_success
  | ec_closed    (* [websocket::error::closed] *)
  | ec_failure.

(** [if (ec)]. *)
Definition failed (ec : error_code) : bool :=
  match ec with
  | ec_success => false
  | _ => true
  end.

Inductive Effect :=
  | AsyncAccept                        (* [ws_.async_accept] *)
  | AsyncRead                          (* [ws_.async_read] *)
  | AsyncWrite (message : string)      (* [ws_.async_write] *)
  | WsClose                            (* [ws_.close(close_code::normal, ec)] *)
  | MessageHandler (message : string)  (* [message_handler_(message)] *)
  | CloseHandler.                      (* [close_handler_()] *)

(** The data members of [WebSocketConnection] apart from the socket, the read
    buffer and the mutex. *)
Record connection := mkConnection {
  connection_id_ : string;
  connected_ : bool;
  message_handler_ : bool;
  close_handler_ : bool
}.

(** The constructor. *)
Definition new_connection (cid : string) : connection :=
  {| connection_id_ := cid; connected_ := false;
     message_handler_ := false; close_handler_ := false |}.

Definition set_connected (b : bool) (c : connection) : connection :=
  {| connection_id_ := connection_id_ c; connected_ := b;
     message_handler_ := message_handler_ c;
     close_handler_ := close_handler_ c |}.

(** [set_message_handler] and [set_close_handler]; [target] tells whether the
    function passed holds a target. *)
Definition set_message_handler (target : bool) (c : connection) : connection :=
  {| connection_id_ := connection_id_ c; connected_ := connected_ c;
     message_handler_ := target; close_handler_ := close_handler_ c |}.

Definition set_close_handler (target : bool) (c : connection) : connection :=
  {| connection_id_ := connection_id_ c; connected_ := connected_ c;
     message_handler_ := message_handler_ c; close_handler_ := target |}.

(** [if (close_handler_) close_handler_();] *)
Definition call_close_handler (c : connection) : list Effect :=
  if close_handler_ c then [CloseHandler] else [].

(** [WebSocketConnection::perform_handshake]. *)
Definition perform_handshake (c : connection) : connection * list Effect :=
  (c, [AsyncAccept]).

(** [WebSocketConnection::start_reading]. *)
Definition start_reading (c : connection) : connection * list Effect :=
  (c, [AsyncRead]).

(** [WebSocketConnection::on_handshake]. *)
Definition on_handshake (ec : error_code) (c : connection)
    : connection * list Effect :=
  if failed ec then (c, [])
  else start_reading (set_connected true c).

(** [WebSocketConnection::on_read]; [message] is the content of the read
    buffer. *)
Definition on_read (ec : error_code) (message : string) (c : connection)
    : connection * list Effect :=
  if failed ec then (set_connected false c, call_close_handler c)
  else
    let delivered :=
      if message_handler_ c then [MessageHandler message] else [] in
    let '(c', armed) := start_reading c in
    (c', delivered ++ armed).

(** [WebSocketConnection::send_message]. *)
Definition send_message (message : string) (c : connection)
    : connection * list Effect :=
  if negb (connected_ c) then (c, [])
  else (c, [AsyncWrite message]).

(** [WebSocketConnection::on_write]. *)
Definition on_write (ec : error_code) (c : connection)
    : connection * list Effect :=
  if failed ec then (set_connected false c, call_close_handler c)
  else (c, []).

(** [WebSocketConnection::close]; the error code of [ws_.close] is only
    logged. *)
Definition close (c : connection) : connection * list Effect :=
  if connected_ c then (set_connected false c, WsClose :: call_close_handler c)
  else (c, []).

(** [WebSocketConnection::is_connected]. *)
Definition is_connected (c : connection) : bool := connected_ c.

(** [WebSocketConnection::get_connection_id]. *)
Definition get_connection_id (c : connection) : string := connection_id_ c.

End WebSocketConnection.

(** ** WebSocket handler

    The connection objects [on_accept] creates live on the free store; the
    registry [connections_] holds pointers to them and so do the completion
    handlers the objects start.  [objects] is that store, an object's address
    its position in it.  [connections_mutex_] is [true] while a
    [std::lock_guard] on it is alive: locking it again from the same thread
    is undefined, which is the [None] of a method's result.  The acceptor,
    the [io_context] and the worker threads are not part of the state. *)

Module WebSocketHandler.

Module C := WebSocketConnection.

Inductive Effect :=
  | Socket (cid : string) (e : C.Effect)     (* handed to the socket of [cid] *)
  | MessageCallback (cid message : string)   (* [message_handler_(id, message)] *)
  | ConnectionCallback (cid : string)        (* [connection_handler_(id)] *)
  | DisconnectionCallback (cid : string)     (* [disconnection_handler_(id)] *)
  | AcceptorAsyncAccept.                     (* [acceptor_.async_accept] *)

Record handler := mkHandler {
  port_ : Z;
  objects : list C.connection;
  connections_ : gmap string nat;
  connections_mutex_ : bool;
  message_handler_ : bool;
  connection_handler_ : bool;
  disconnection_handler_ : bool;
  running_ : bool;
  next_connection_id_ : Z
}.

(** The handler as its constructor leaves it. *)
Definition new_handler (port : Z) : handler :=
  {| port_ := port; objects := []; connections_ := ∅;
     connections_mutex_ := false;
     message_handler_ := false; connection_handler_ := false;
     disconnection_handler_ := false;
     running_ := false; next_connection_id_ := 1 |}.

Definition set_objects (l : list C.connection) (h : handler) : handler :=
  {| port_ := port_ h; objects := l; connections_ := connections_ h;
     connections_mutex_ := connections_mutex_ h;
     message_handler_ := message_handler_ h;
     connection_handler_ := connection_handler_ h;
     disconnection_handler_ := disconnection_handler_ h;
     running_ := running_ h; next_connection_id_ := next_connection_id_ h |}.

Definition set_connections (m : gmap string nat) (h : handler) : handler :=
  {| port_ := port_ h; objects := objects h; connections_ := m;
     connections_mutex_ := connections_mutex_ h;
     message_handler_ := message_handler_ h;
     connection_handler_ := connection_handler_ h;
     disconnection_handler_ := disconnection_handler_ h;
     running_ := running_ h; next_connection_id_ := next_connection_id_ h |}.

Definition set_mutex (held : bool) (h : handler) : handler :=
  {| port_ := port_ h; objects := objects h; connections_ := connections_ h;
     connections_mutex_ := held;
     message_handler_ := message_handler_ h;
     connection_handler_ := connection_handler_ h;
     disconnection_handler_ := disconnection_handler_ h;
     running_ := running_ h; next_connection_id_ := next_connection_id_ h |}.

Definition set_running (b : bool) (h : handler) : handler :=
  {| port_ := port_ h; objects := objects h; connections_ := connections_ h;
     connections_mutex_ := connections_mutex_ h;
     message_handler_ := message_handler_ h;
     connection_handler_ := connection_handler_ h;
     disconnection_handler_ := disconnection_handler_ h;
     running_ := b; next_connection_id_ := next_connection_id_ h |}.

Definition set_next_connection_id (n : Z) (h : handler) : handler :=
  {| port_ := port_ h; objects := objects h; connections_ := connections_ h;
     connections_mutex_ := connections_mutex_ h;
     message_handler_ := message_handler_ h;
     connection_handler_ := connection_handler_ h;
     disconnection_handler_ := disconnection_handler_ h;
     running_ := running_ h; next_connection_id_ := n |}.

(** [set_message_handler], [set_connection_handler] and
    [set_disconnection_handler]. *)
Definition set_handlers (message connection disconnection : bool)
    (h : handler) : handler :=
  {| port_ := port_ h; objects := objects h; connections_ := connections_ h;
     connections_mutex_ := connections_mutex_ h;
     message_handler_ := message;
     connection_handler_ := connection;
     disconnection_handler_ := disconnection;
     running_ := running_ h; next_connection_id_ := next_connection_id_ h |}.

(** The value a [uint64_t] holds after an arithmetic result [z]. *)
Definition u64 (z : Z) : Z := z mod 2 ^ 64.

(** Construction and destruction of a [std::lock_guard] on
    [connections_mutex_]. *)
Definition lock (h : handler) : option handler :=
  if connections_mutex_ h then None else Some (set_mutex true h).

Definition unlock (h : handler) : handler := set_mutex false h.

(** [WebSocketHandler::on_message]. *)
Definition on_message (cid message : string) (h : handler)
    : handler * list Effect :=
  (h, if message_handler_ h then [MessageCallback cid message] else []).

(** [WebSocketHandler::on_connection]. *)
Definition on_connection (cid : string) (h : handler) : handler * list Effect :=
  (h, if connection_handler_ h then [ConnectionCallback cid] else []).

(** [WebSocketHandler::on_disconnection]. *)
Definition on_disconnection (cid : string) (h : handler)
    : option (handler * list Effect) :=
  h1 ← lock h;
  let h2 := unlock (set_connections (delete cid (connections_ h1)) h1) in
  Some (h2, if disconnection_handler_ h2 then [DisconnectionCallback cid] else []).

(** What a connection hands out, for a connection set up by [on_accept]: its
    message handler is the closure calling [on_message(connection_id, _)],
    its close handler the closure calling [on_disconnection(connection_id)],
    and the rest goes to its socket. *)
Definition dispatch_one (cid : string) (e : C.Effect) (h : handler)
    : option (handler * list Effect) :=
  match e with
  | C.MessageHandler message => Some (on_message cid message h)
  | C.CloseHandler => on_disconnection cid h
  | _ => Some (h, [Socket cid e])
  end.

Fixpoint dispatch (cid : string) (es : list C.Effect) (h : handler)
    : option (handler * list Effect) :=
  match es with
  | [] => Some (h, [])
  | e :: es' =>
      r1 ← dispatch_one cid e h;
      r2 ← dispatch cid es' r1.1;
      Some (r2.1, r1.2 ++ r2.2)
  end.

(** A method [f] of the connection object at [addr] runs, called through a
    pointer to it or as one of its completion handlers: the object changes in
    place and what it hands out is dispatched. *)
Definition on_object (addr : nat)
    (f : C.connection → C.connection * list C.Effect) (h : handler)
    : option (handler * list Effect) :=
  match objects h !! addr with
  | None => Some (h, [])
  | Some c =>
      let r := f c in
      dispatch (C.connection_id_ c) r.2 (set_objects (<[addr := r.1]> (objects h)) h)
  end.

(** A loop over pointers, running [f] on each object in turn. *)
Fixpoint for_each (f : C.connection → C.connection * list C.Effect)
    (addrs : list nat) (h : handler) : option (handler * list Effect) :=
  match addrs with
  | [] => Some (h, [])
  | addr :: addrs' =>
      r1 ← on_object addr f h;
      r2 ← for_each f addrs' r1.1;
      Some (r2.1, r1.2 ++ r2.2)
  end.

(** ["conn_" + std::to_string(n)]. *)
Definition issued_id (n : Z) : string := "conn_" +:+ pretty n.

(** [WebSocketHandler::on_accept]. *)
Definition on_accept (ec : C.error_code) (h : handler)
    : option (handler * list Effect) :=
  if C.failed ec then Some (h, [])
  else
    let connection_id := issued_id (next_connection_id_ h) in
    let h1 := set_next_connection_id (u64 (next_connection_id_ h + 1)) h in
    let connection :=
      C.set_close_handler true
        (C.set_message_handler true (C.new_connection connection_id)) in
    let addr := length (objects h1) in
    let h2 := set_objects (objects h1 ++ [connection]) h1 in
    h3 ← lock h2;
    let h4 := unlock (set_connections (<[connection_id := addr]> (connections_ h3)) h3) in
    r1 ← on_object addr C.perform_handshake h4;
    let r2 := on_connection connection_id r1.1 in
    Some (r2.1, r1.2 ++ r2.2 ++ [AcceptorAsyncAccept]).

(** [WebSocketHandler::send_to_connection]. *)
Definition send_to_connection (cid message : string) (h : handler)
    : option (handler * list Effect) :=
  h1 ← lock h;
  r ← match connections_ h1 !! cid with
      | Some addr => on_object addr (C.send_message message) h1
      | None => Some (h1, [])
      end;
  Some (unlock r.1, r.2).

(** The body of the loop of [broadcast]. *)
Definition send_if_connected (message : string) (c : C.connection)
    : C.connection * list C.Effect :=
  if C.is_connected c then C.send_message message c else (c, []).

(** [WebSocketHandler::broadcast]. *)
Definition broadcast (message : string) (h : handler)
    : option (handler * list Effect) :=
  h1 ← lock h;
  r ← for_each (send_if_connected message) (map_to_list (connections_ h1)).*2 h1;
  Some (unlock r.1, r.2).

(** [WebSocketHandler::get_connection_count]. *)
Definition get_connection_count (h : handler) : option nat :=
  h1 ← lock h; Some (size (connections_ h1)).

(** [WebSocketHandler::has_connection]. *)
Definition has_connection (cid : string) (h : handler) : option bool :=
  h1 ← lock h; Some (bool_decide (is_Some (connections_ h1 !! cid))).

(** [WebSocketHandler::start]; the arguments are the error codes of
    [acceptor_.open], [set_option], [bind] and [listen]. *)
Definition start (open_ec option_ec bind_ec listen_ec : C.error_code)
    (h : handler) : handler * list Effect :=
  if running_ h then (h, [])
  else
    let h1 := set_running true h in
    if C.failed open_ec then (h1, [])
    else if C.failed option_ec then (h1, [])
    else if C.failed bind_ec then (h1, [])
    else if C.failed listen_ec then (h1, [])
    else (h1, [AcceptorAsyncAccept]).

(** [WebSocketHandler::stop]. *)
Definition stop (h : handler) : option (handler * list Effect) :=
  if negb (running_ h) then Some (h, [])
  else
    let h0 := set_running false h in
    h1 ← lock h0;
    r ← for_each C.close (map_to_list (connections_ h1)).*2 h1;
    Some (unlock (set_connections ∅ r.1), r.2).

(** The registry as [on_accept] builds it: every key is an id issued for a
    counter value already passed, and points to an object carrying that id
    and the two closures. *)
Definition registry_ok (h : handler) : Prop :=
  ∀ cid addr, connections_ h !! cid = Some addr →
    (∃ n, 0 <= n < next_connection_id_ h ∧ cid = issued_id n)
    ∧ ∃ c, objects h !! addr = Some c
           ∧ C.connection_id_ c = cid
           ∧ C.message_handler_ c = true
           ∧ C.close_handler_ c = true.

End WebSocketHandler.

(** * Properties *)

(** ** Machine arithmetic *)

Lemma u32_id (z : Z) : 0 <= z <= UINT32_MAX → u32 z = z.
Proof. unfold u32, UINT32_MAX. intros H. apply Z.mod_small. lia. Qed.

Lemma u32_range (z : Z) : 0 <= u32 z <= UINT32_MAX.
Proof.
  unfold u32, UINT32_MAX.
  pose proof (Z.mod_pos_bound z (2 ^ 32) ltac:(lia)). lia.
Qed.

Lemma u32_sub_idemp (x k : Z) : u32 (u32 x - k) = u32 (x - k).
Proof. unfold u32. apply Zminus_mod_idemp_l. Qed.

(** ** Connection manager *)

Module ConnectionManagerFacts.
Import ConnectionManager.

(** *** The metric sink leaves the registry alone *)

Lemma update_metric_connections k v a :
  connections_ (update_metric k v a) = connections_ a.
Proof. reflexivity. Qed.

Lemma update_metric_current k v a :
  current_connections_ (update_metric k v a) = current_connections_ a.
Proof. reflexivity. Qed.

(** *** Admission *)

Lemma admit_at_capacity now cid ip a :
  max_connections_ a <= current_connections_ a →
  handle_new_connection now cid ip a
  = (false, update_metric "connection_rejected" 1%float a).
Proof.
  intros H. unfold handle_new_connection.
  destruct (Z.leb_spec (max_connections_ a) (current_connections_ a)); [done | lia].
Qed.

Lemma admit_below_capacity now cid ip a :
  current_connections_ a < max_connections_ a →
  let r := handle_new_connection now cid ip a in
  r.1 = true
  ∧ connections_ r.2 = <[cid := fresh_info now cid ip]> (connections_ a)
  ∧ current_connections_ r.2 = u32 (current_connections_ a + 1).
Proof.
  intros H. unfold handle_new_connection.
  destruct (Z.leb_spec (max_connections_ a) (current_connections_ a)); [lia | done].
Qed.

(** Below capacity an admission never looks at the registry: an id that is
    already live is admitted again, its record replaced by a fresh one, and
    the counter incremented although the registry keeps its size. *)
Lemma admit_live_id_overwrites now cid ip a old :
  connections_ a !! cid = Some old →
  current_connections_ a < max_connections_ a →
  let r := handle_new_connection now cid ip a in
  r.1 = true
  ∧ connections_ r.2 !! cid = Some (fresh_info now cid ip)
  ∧ size (connections_ r.2) = size (connections_ a)
  ∧ current_connections_ r.2 = u32 (current_connections_ a + 1).
Proof.
  intros Hold Hlt.
  destruct (admit_below_capacity now cid ip a Hlt) as (H1 & H2 & H3).
  cbv zeta. rewrite H1, H2, H3. split_and!; [done | | | done].
  - apply lookup_insert_eq.
  - apply map_size_insert_Some. by rewrite Hold.
Qed.

(** *** Removal *)

Lemma disconnect_unknown cid a :
  connections_ a !! cid = None → handle_disconnection cid a = a.
Proof. intros H. unfold handle_disconnection. by rewrite H. Qed.

Lemma disconnect_known cid a r :
  connections_ a !! cid = Some r →
  connections_ (handle_disconnection cid a) = delete cid (connections_ a)
  ∧ current_connections_ (handle_disconnection cid a)
    = u32 (current_connections_ a - 1).
Proof. intros H. unfold handle_disconnection. by rewrite H. Qed.

Lemma disconnect_connections cid a :
  connections_ (handle_disconnection cid a) = delete cid (connections_ a).
Proof.
  destruct (connections_ a !! cid) as [r|] eqn:E.
  - by destruct (disconnect_known _ _ _ E).
  - rewrite disconnect_unknown by done. symmetry. by apply delete_id.
Qed.

(** *** The inactivity sweep *)

(** The second phase of the sweep: one disconnection per collected id. *)
Lemma disconnect_each_connections ids a k :
  connections_ (foldl (λ acc cid, handle_disconnection cid acc) a ids) !! k
  = if decide (k ∈ ids) then None else connections_ a !! k.
Proof.
  revert a. induction ids as [|i ids IH]; intros a.
  - rewrite decide_False by apply not_elem_of_nil. done.
  - cbn [foldl]. rewrite IH, disconnect_connections.
    destruct (decide (k ∈ ids)) as [Hin|Hin].
    + rewrite decide_True; [done | by right].
    + destruct (decide (k = i)) as [->|Hne].
      * rewrite decide_True by left. apply lookup_delete_eq.
      * rewrite decide_False.
        -- by apply lookup_delete_ne.
        -- intros [?|?]%elem_of_cons; done.
Qed.

Lemma disconnect_each_current ids a :
  NoDup ids →
  (∀ i, i ∈ ids → is_Some (connections_ a !! i)) →
  0 <= current_connections_ a <= UINT32_MAX →
  current_connections_ (foldl (λ acc cid, handle_disconnection cid acc) a ids)
  = u32 (current_connections_ a - Z.of_nat (length ids)).
Proof.
  revert a. induction ids as [|i ids IH]; intros a Hnd Hin Hrange; simpl.
  - rewrite Z.sub_0_r. symmetry. by apply u32_id.
  - apply NoDup_cons in Hnd as [Hni Hnd].
    destruct (Hin i) as [r Hr]; [by left|].
    destruct (disconnect_known _ _ _ Hr) as [Hc Hn].
    rewrite IH; [| done | | rewrite Hn; apply u32_range].
    + rewrite Hn, u32_sub_idemp. f_equal. lia.
    + intros j Hj. rewrite Hc, lookup_delete_ne.
      * apply Hin. by right.
      * intros ->. done.
Qed.

Lemma elem_of_collect_inactive now timeout c k :
  k ∈ collect_inactive now timeout c
  ↔ ∃ r, c !! k = Some r ∧ inactive now timeout r = true.
Proof.
  unfold collect_inactive. rewrite list_elem_of_fmap. split.
  - intros ([k' r] & -> & H). apply elem_of_map_to_list in H.
    apply map_lookup_filter_Some in H. simpl in *. eauto.
  - intros (r & H1 & H2). exists (k, r). split; [done|].
    apply elem_of_map_to_list, map_lookup_filter_Some. done.
Qed.

Lemma cleanup_connections now timeout a :
  connections_ (cleanup_inactive_connections now timeout a)
  = filter (λ kv, inactive now timeout kv.2 = false) (connections_ a).
Proof.
  apply map_eq. intros k.
  assert (connections_ (cleanup_inactive_connections now timeout a) !! k
          = if decide (k ∈ collect_inactive now timeout (connections_ a))
            then None else connections_ a !! k) as ->.
  { unfold cleanup_inactive_connections.
    destruct (collect_inactive now timeout (connections_ a)) eqn:E;
      [| rewrite update_metric_connections];
      rewrite <- E at 1; rewrite disconnect_each_connections; by rewrite E. }
  symmetry. case_decide as Hk.
  - apply elem_of_collect_inactive in Hk as (r & Hr & Hi).
    apply map_lookup_filter_None. right. intros x Hx. simpl. congruence.
  - destruct (connections_ a !! k) as [r|] eqn:Hr.
    + apply map_lookup_filter_Some. split; [done|]. simpl.
      destruct (inactive now timeout r) eqn:Hi; [|done].
      exfalso. apply Hk, elem_of_collect_inactive. eauto.
    + apply map_lookup_filter_None. by left.
Qed.

Lemma cleanup_current now timeout a :
  0 <= current_connections_ a <= UINT32_MAX →
  current_connections_ (cleanup_inactive_connections now timeout a)
  = u32 (current_connections_ a
         - Z.of_nat (size (filter (λ kv, inactive now timeout kv.2 = true)
                                  (connections_ a)))).
Proof.
  intros Hrange.
  assert (current_connections_ (cleanup_inactive_connections now timeout a)
          = current_connections_
              (foldl (λ acc cid, handle_disconnection cid acc) a
                     (collect_inactive now timeout (connections_ a)))) as ->.
  { unfold cleanup_inactive_connections.
    by destruct (collect_inactive now timeout (connections_ a)). }
  rewrite disconnect_each_current; [| | | done].
  - unfold collect_inactive. by rewrite length_fmap, length_map_to_list.
  - apply NoDup_fst_map_to_list.
  - intros i (r & Hr & _)%elem_of_collect_inactive. eauto.
Qed.

Lemma int64_id z : fits_int64 z → int64 z = z.
Proof.
  unfold fits_int64, int64. intros H. rewrite Z.mod_small by lia. lia.
Qed.

Lemma inactive_spec now timeout r :
  fits_int64 (timeout * ticks_per_second) →
  fits_int64 (now - last_activity r) →
  inactive now timeout r = true
  ↔ timeout * ticks_per_second < now - last_activity r.
Proof.
  intros H1 H2. unfold inactive. rewrite !int64_id by done. apply Z.ltb_lt.
Qed.

(** How many records a sweep at [now] with [timeout] finds inactive. *)
Lemma inactive_count now timeout (c : gmap string ConnectionInfo) :
  fits_int64 (timeout * ticks_per_second) →
  (∀ cid r, c !! cid = Some r → fits_int64 (now - last_activity r)) →
  filter (λ kv, inactive now timeout kv.2 = true) c
  = filter (λ kv, timeout * ticks_per_second < now - last_activity kv.2) c.
Proof.
  intros Ht Hd. apply map_filter_ext. intros i x Hx.
  apply inactive_spec; [done|]. by eapply Hd.
Qed.

(** The agent right after its first admission. *)
Lemma first_admission t0 cid ip max :
  0 < max →
  let a := (handle_new_connection t0 cid ip (new_agent max)).2 in
  connections_ a = {[cid := fresh_info t0 cid ip]} ∧ current_connections_ a = 1.
Proof.
  intros Hmax.
  destruct (admit_below_capacity t0 cid ip (new_agent max)) as (_ & H2 & H3);
    [done|].
  cbv zeta. rewrite H2, H3. done.
Qed.

(** C8 (as amended).  When the timeout, converted to ticks, and the
    inactivity [now - last_activity] of the records fit the signed 64-bit tick
    count, the sweep removes exactly the records whose inactivity strictly
    exceeds the timeout, and every eviction goes through
    [handle_disconnection], so the admitted counter goes down by one (modulo
    2^32) per evicted record.  In particular a record admitted at [t0]
    survives a sweep with a one-second timeout made at most one second later,
    with the counter still 1, and is removed by a sweep made more than one
    second later, with the counter back at 0. *)
Theorem sweep_removes_exactly_the_inactive :
  (∀ now timeout a cid,
     fits_int64 (timeout * ticks_per_second) →
     (∀ r, connections_ a !! cid = Some r →
           fits_int64 (now - last_activity r)) →
     connections_ (cleanup_inactive_connections now timeout a) !! cid
     = r ← connections_ a !! cid;
       if decide (timeout * ticks_per_second < now - last_activity r)
       then None else Some r)
  ∧ (∀ now timeout a,
       fits_int64 (timeout * ticks_per_second) →
       (∀ cid r, connections_ a !! cid = Some r →
                 fits_int64 (now - last_activity r)) →
       0 <= current_connections_ a <= UINT32_MAX →
       current_connections_ (cleanup_inactive_connections now timeout a)
       = u32 (current_connections_ a
              - Z.of_nat (size (filter
                   (λ kv, timeout * ticks_per_second < now - last_activity kv.2)
                   (connections_ a)))))
  ∧ (∀ t0 t1 cid ip max,
       0 < max →
       fits_int64 (t1 - t0) →
       let a := (handle_new_connection t0 cid ip (new_agent max)).2 in
       let a' := cleanup_inactive_connections t1 1 a in
       (t1 - t0 <= 1 * ticks_per_second →
        connections_ a' !! cid = Some (fresh_info t0 cid ip)
        ∧ current_connections_ a' = 1)
       ∧ (1 * ticks_per_second < t1 - t0 →
          connections_ a' !! cid = None ∧ current_connections_ a' = 0)).
Proof.
  assert (Hlookup : ∀ now timeout a cid,
     fits_int64 (timeout * ticks_per_second) →
     (∀ r, connections_ a !! cid = Some r →
           fits_int64 (now - last_activity r)) →
     connections_ (cleanup_inactive_connections now timeout a) !! cid
     = r ← connections_ a !! cid;
       if decide (timeout * ticks_per_second < now - last_activity r)
       then None else Some r).
  { intros now timeout a cid Ht Hd.
    rewrite cleanup_connections, map_lookup_filter.
    destruct (connections_ a !! cid) as [r|]; simpl; [|done].
    specialize (Hd r eq_refl).
    destruct (inactive now timeout r) eqn:Hi.
    - rewrite decide_True by (by apply inactive_spec).
      by rewrite option_guard_False.
    - rewrite decide_False; [by rewrite option_guard_True|].
      intros H%inactive_spec; [congruence | done | done]. }
  assert (Hcount : ∀ now timeout a,
       fits_int64 (timeout * ticks_per_second) →
       (∀ cid r, connections_ a !! cid = Some r →
                 fits_int64 (now - last_activity r)) →
       0 <= current_connections_ a <= UINT32_MAX →
       current_connections_ (cleanup_inactive_connections now timeout a)
       = u32 (current_connections_ a
              - Z.of_nat (size (filter
                   (λ kv, timeout * ticks_per_second < now - last_activity kv.2)
                   (connections_ a))))).
  { intros now timeout a Ht Hd Hr. rewrite cleanup_current by done.
    by rewrite inactive_count. }
  split_and!; [done | done |].
  intros t0 t1 cid ip max Hmax Hfit.
  destruct (first_admission t0 cid ip max Hmax) as [Hc Hn].
  assert (fits_int64 (1 * ticks_per_second)) as Hsec by (by vm_compute).
  assert (∀ k r,
            connections_ (handle_new_connection t0 cid ip (new_agent max)).2 !! k
            = Some r → fits_int64 (t1 - last_activity r)) as Hall.
  { intros k r. rewrite Hc. intros [_ <-]%lookup_singleton_Some. done. }
  cbv zeta. split; intros Ht.
  - rewrite Hlookup, Hcount; [| done | done | rewrite Hn; unfold UINT32_MAX; lia
                               | done | by apply Hall].
    rewrite Hc, Hn, lookup_singleton_eq. simpl.
    rewrite decide_False by lia. split; [done|].
    rewrite map_filter_singleton_False by (simpl; lia).
    by rewrite map_size_empty.
  - rewrite Hlookup, Hcount; [| done | done | rewrite Hn; unfold UINT32_MAX; lia
                               | done | by apply Hall].
    rewrite Hc, Hn, lookup_singleton_eq. simpl.
    rewrite decide_True by lia. split; [done|].
    rewrite map_filter_singleton_True by (simpl; lia).
    by rewrite map_size_singleton.
Qed.

(** The test [CleanupInactiveConnections]: admitted at tick 0, swept after
    ten ticks and again after two seconds. *)
Lemma sweep_removes_exactly_the_inactive_witness :
  let a := (handle_new_connection 0 "test_conn_1" "127.0.0.1" (new_agent 100)).2 in
  (connections_ (cleanup_inactive_connections 10 1 a) !! "test_conn_1"
   = Some (fresh_info 0 "test_conn_1" "127.0.0.1")
   ∧ current_connections_ (cleanup_inactive_connections 10 1 a) = 1)
  ∧ (connections_ (cleanup_inactive_connections 2000000000 1 a) !! "test_conn_1"
     = None
     ∧ current_connections_ (cleanup_inactive_connections 2000000000 1 a) = 0).
Proof.
  destruct sweep_removes_exactly_the_inactive as (_ & _ & H).
  split.
  - apply (H 0 10 "test_conn_1" "127.0.0.1" 100);
      [lia | by vm_compute | vm_compute; discriminate].
  - apply (H 0 2000000000 "test_conn_1" "127.0.0.1" 100);
      [lia | by vm_compute | reflexivity].
Defined.

(** C8, refuted as stated.  A timeout of 9223372037 seconds does not fit the
    tick count: converted to ticks it wraps to a negative count, and a sweep
    ten ticks after the admission removes the record although its inactivity
    of ten ticks is far below the timeout. *)
Lemma sweep_with_overlong_timeout_evicts_the_active :
  let a := (handle_new_connection 0 "c1" "127.0.0.1" (new_agent 100)).2 in
  ∃ r, connections_ a !! "c1" = Some r
       ∧ 10 - last_activity r <= 9223372037 * ticks_per_second
       ∧ int64 (9223372037 * ticks_per_second) = -9223372036709551616
       ∧ connections_ (cleanup_inactive_connections 10 9223372037 a) !! "c1" = None
       ∧ current_connections_ (cleanup_inactive_connections 10 9223372037 a) = 0.
Proof.
  cbv zeta. exists (fresh_info 0 "c1" "127.0.0.1").
  split_and!; [reflexivity | by vm_compute | reflexivity | reflexivity
               | reflexivity].
Qed.

(** *** Activity *)

Lemma touch_known now cid a r :
  connections_ a !! cid = Some r →
  connections_ (update_activity now cid a) !! cid
  = Some (set_last_activity now r).
Proof.
  intros H. unfold update_activity. rewrite H. simpl. apply lookup_insert_eq.
Qed.

(** C6 (as amended).  [update_activity] stores the clock reading it takes,
    whatever it is: afterwards [last_activity] is that reading and the other
    fields are as before.  So [last_activity] has not decreased whenever the
    reading is not earlier than the stored value, and has decreased to the
    reading whenever the reading is earlier. *)
Theorem touch_stores_the_clock_reading now cid a r :
  connections_ a !! cid = Some r →
  ∃ r', connections_ (update_activity now cid a) !! cid = Some r'
        ∧ last_activity r' = now
        ∧ connection_id r' = connection_id r
        ∧ user_id r' = user_id r
        ∧ ip_address r' = ip_address r
        ∧ connected_at r' = connected_at r
        ∧ is_authenticated r' = is_authenticated r
        ∧ (last_activity r <= now → last_activity r <= last_activity r')
        ∧ (now < last_activity r → last_activity r' < last_activity r).
Proof.
  intros Hr. exists (set_last_activity now r).
  split; [by apply touch_known|]. simpl. split_and!; done.
Qed.

(** A record last active at tick 10, touched once while the clock reads 20
    and once while it reads 5. *)
Lemma touch_stores_the_clock_reading_witness :
  let a := (handle_new_connection 10 "c1" "127.0.0.1" (new_agent 100)).2 in
  (∃ r', connections_ (update_activity 20 "c1" a) !! "c1" = Some r'
         ∧ last_activity r' = 20)
  ∧ (∃ r', connections_ (update_activity 5 "c1" a) !! "c1" = Some r'
           ∧ last_activity r' = 5).
Proof.
  cbv zeta. split.
  - destruct (touch_stores_the_clock_reading 20 "c1"
                (handle_new_connection 10 "c1" "127.0.0.1" (new_agent 100)).2
                (fresh_info 10 "c1" "127.0.0.1") eq_refl)
      as (r' & H1 & H2 & _).
    by exists r'.
  - destruct (touch_stores_the_clock_reading 5 "c1"
                (handle_new_connection 10 "c1" "127.0.0.1" (new_agent 100)).2
                (fresh_info 10 "c1" "127.0.0.1") eq_refl)
      as (r' & H1 & H2 & _).
    by exists r'.
Defined.

(** C6, refuted as stated: a record last active at tick 10 is touched while
    the clock reads 5, and its [last_activity] drops to 5. *)
Lemma touch_regresses_on_stale_clock :
  let a := (handle_new_connection 10 "c1" "127.0.0.1" (new_agent 100)).2 in
  ∃ r r', connections_ a !! "c1" = Some r
          ∧ connections_ (update_activity 5 "c1" a) !! "c1" = Some r'
          ∧ last_activity r' < last_activity r.
Proof.
  cbv zeta.
  exists (fresh_info 10 "c1" "127.0.0.1"),
         (set_last_activity 5 (fresh_info 10 "c1" "127.0.0.1")).
  split_and!; [reflexivity | reflexivity | simpl; lia].
Qed.

(** *** Duplicate admission *)

(** C1, evaluated on the code at the input of the test [HandleNewConnection]
    (with the record authenticated in between): the second admission of
    ["test_conn_1"] returns [true], replaces the authenticated record of tick
    10 by a fresh one of tick 50, and raises the counter to 2 while the
    registry holds one record. *)
Theorem duplicate_admission_is_accepted :
  let a1 := (handle_new_connection 10 "test_conn_1" "127.0.0.1" (new_agent 100)).2 in
  let a2 := authenticate_connection "test_conn_1" "user_123" a1 in
  let r := handle_new_connection 50 "test_conn_1" "127.0.0.1" a2 in
  connections_ a2 !! "test_conn_1"
  = Some {| connection_id := "test_conn_1"; user_id := "user_123";
            ip_address := "127.0.0.1"; connected_at := 10; last_activity := 10;
            is_authenticated := true; bytes_sent := 0; bytes_received := 0 |}
  ∧ current_connections_ a2 = 1
  ∧ r.1 = true
  ∧ connections_ r.2 !! "test_conn_1"
    = Some {| connection_id := "test_conn_1"; user_id := "";
              ip_address := "127.0.0.1"; connected_at := 50; last_activity := 50;
              is_authenticated := false; bytes_sent := 0; bytes_received := 0 |}
  ∧ current_connections_ r.2 = 2
  ∧ size (connections_ r.2) = 1%nat.
Proof. vm_compute. repeat split. Qed.

(** *** Counter, registry size and utilization *)

Lemma stats_total a :
  get_connection_stats a !! "total_connections"
  = Some (to_double (current_connections_ a)).
Proof. unfold get_connection_stats. by rewrite lookup_insert_eq. Qed.

Lemma stats_utilization a :
  get_connection_stats a !! "connection_utilization"
  = Some (to_double (current_connections_ a)
          / to_double (max_connections_ a))%float.
Proof.
  unfold get_connection_stats.
  rewrite !lookup_insert_ne by done. by rewrite lookup_insert_eq.
Qed.

(** C2, evaluated on the code: two admissions of ["c1"] into an agent with
    room for 100 leave the counter at 2 and one record in the registry; the
    reported utilization is the counter over the maximum, 2/100. *)
Theorem counter_exceeds_registry_after_duplicate :
  let a := run [Admit 0 "c1" "127.0.0.1"; Admit 1 "c1" "127.0.0.1"]
               (new_agent 100) in
  current_connections_ a = 2
  ∧ size (connections_ a) = 1%nat
  ∧ get_connection_stats a !! "total_connections" = Some 2%float
  ∧ get_connection_stats a !! "connection_utilization"
    = Some (to_double 2 / to_double 100)%float.
Proof. vm_compute. repeat split. Qed.

Lemma size_delete_known (c : gmap string ConnectionInfo) cid r :
  c !! cid = Some r → size c = S (size (delete cid c)).
Proof.
  intros H. rewrite <- (insert_delete_id c cid r) at 1 by done.
  apply map_size_insert_None, lookup_delete_eq.
Qed.

Lemma new_agent_counter_is_size max : counter_is_size (new_agent max).
Proof. split; simpl; [by rewrite map_size_empty | unfold UINT32_MAX; lia]. Qed.

Lemma disconnect_counter_is_size cid a :
  counter_is_size a → counter_is_size (handle_disconnection cid a).
Proof.
  intros [Heq Hr]. destruct (connections_ a !! cid) as [r|] eqn:E.
  - destruct (disconnect_known _ _ _ E) as [Hc Hn].
    pose proof (size_delete_known _ _ _ E) as Hs.
    unfold counter_is_size. rewrite Hc, Hn.
    rewrite u32_id by lia. lia.
  - by rewrite disconnect_unknown.
Qed.

Lemma disconnect_each_counter_is_size ids a :
  counter_is_size a →
  counter_is_size (foldl (λ acc cid, handle_disconnection cid acc) a ids).
Proof.
  revert a. induction ids as [|i ids IH]; intros a H; [done|].
  cbn [foldl]. by apply IH, disconnect_counter_is_size.
Qed.

Lemma disconnect_max cid a :
  max_connections_ (handle_disconnection cid a) = max_connections_ a.
Proof. unfold handle_disconnection. by destruct (connections_ a !! cid). Qed.

Lemma call_max c a : max_connections_ (call c a) = max_connections_ a.
Proof.
  destruct c as [now cid ip|cid|cid uid|now cid|now timeout]; simpl.
  - unfold handle_new_connection. by case_match.
  - apply disconnect_max.
  - unfold authenticate_connection. by case_match.
  - unfold update_activity. by case_match.
  - unfold cleanup_inactive_connections.
    assert (∀ ids b, max_connections_
              (foldl (λ acc cid, handle_disconnection cid acc) b ids)
            = max_connections_ b) as Hfold.
    { induction ids as [|i ids IH]; intros b; [done|].
      cbn [foldl]. by rewrite IH, disconnect_max. }
    case_match; [apply (Hfold []) | apply (Hfold (_ :: _))].
Qed.

(** One call keeps the counter equal to the registry's size, provided an
    admission does not name a live id. *)
Lemma call_counter_is_size c a :
  max_connections_ a <= UINT32_MAX →
  match c with Admit _ cid _ => connections_ a !! cid = None | _ => True end →
  counter_is_size a → counter_is_size (call c a).
Proof.
  intros Hmax Hfresh [Heq Hr].
  destruct c as [now cid ip|cid|cid uid|now cid|now timeout]; simpl.
  - destruct (Z.le_gt_cases (max_connections_ a) (current_connections_ a)) as [H|H].
    + by rewrite admit_at_capacity.
    + destruct (admit_below_capacity now cid ip a) as (_ & Hc & Hn); [lia|].
      unfold counter_is_size. cbv zeta in Hc, Hn. rewrite Hc, Hn.
      rewrite map_size_insert_None by done. rewrite u32_id by lia. lia.
  - by apply disconnect_counter_is_size.
  - unfold authenticate_connection.
    destruct (connections_ a !! cid) as [r|] eqn:E; [|done].
    unfold counter_is_size; simpl. by rewrite map_size_insert_Some.
  - unfold update_activity.
    destruct (connections_ a !! cid) as [r|] eqn:E; [|done].
    unfold counter_is_size; simpl. by rewrite map_size_insert_Some.
  - unfold cleanup_inactive_connections.
    pose proof (disconnect_each_counter_is_size
                  (collect_inactive now timeout (connections_ a)) a
                  (conj Heq Hr)) as H.
    by case_match.
Qed.

(** The invariant the registry is built for, on the runs that keep it: if
    no admission of a run names an id that is live at that moment, the counter
    equals the registry's size after the run. *)
Theorem run_counter_is_size cs a :
  max_connections_ a <= UINT32_MAX →
  admissions_fresh cs a →
  counter_is_size a →
  counter_is_size (run cs a).
Proof.
  revert a. induction cs as [|c cs IH]; intros a Hmax Hfresh Hinv; [done|].
  destruct Hfresh as [Hc Hcs]. unfold run. cbn [foldl]. apply IH.
  - by rewrite call_max.
  - done.
  - by apply call_counter_is_size.
Qed.

Lemma run_counter_is_size_witness :
  counter_is_size
    (run [Admit 0 "c1" "10.0.0.1"; Admit 1 "c2" "10.0.0.2";
          Authenticate "c1" "u1"; Remove "ghost"; Touch 5 "c2";
          Sweep 3000000000 1; Remove "c2"]
         (new_agent 100)).
Proof.
  apply run_counter_is_size.
  - vm_compute. discriminate.
  - vm_compute. repeat split.
  - apply new_agent_counter_is_size.
Defined.

End ConnectionManagerFacts.

(** ** Load balancer *)

Module LoadBalancerFacts.
Import LoadBalancer.

(** *** Looking a server up *)

Lemma find_server_Some sid l i s :
  find_server sid l = Some (i, s)
  ↔ l !! i = Some s ∧ id s = sid
    ∧ ∀ j y, l !! j = Some y → (j < i)%nat → id y ≠ sid.
Proof. unfold find_server. apply (list_find_Some (λ s, id s = sid)). Qed.

Lemma find_server_None sid l :
  find_server sid l = None ↔ Forall (λ s, id s ≠ sid) l.
Proof. unfold find_server. apply (list_find_None (λ s, id s = sid)). Qed.

(** Rewriting the node a lookup found, keeping its id, does not change what
    the lookup finds. *)
Lemma find_server_insert sid l i s s' :
  find_server sid l = Some (i, s) →
  id s' = id s →
  find_server sid (<[i := s']> l) = Some (i, s').
Proof.
  intros (Hi & Hid & Hfirst)%find_server_Some Hid'.
  apply find_server_Some. split_and!.
  - apply list_lookup_insert_eq. by eapply lookup_lt_Some.
  - congruence.
  - intros j y Hj Hlt. rewrite list_lookup_insert_ne in Hj by lia. eauto.
Qed.

(** The indices the selection methods compute are inside [servers_]. *)
Lemma id_at_in_range (l : list ServerNode) (h : Z) :
  l ≠ [] →
  ∃ s, l !! Z.to_nat (u32 (h mod Z.of_nat (length l))) = Some s
       ∧ id_at l (u32 (h mod Z.of_nat (length l))) = id s.
Proof.
  intros Hl.
  assert (0 < Z.of_nat (length l)) as Hlen by (destruct l; [done | simpl; lia]).
  pose proof (Z.mod_pos_bound h _ Hlen) as Hm.
  assert (0 <= u32 (h mod Z.of_nat (length l)) <= h mod Z.of_nat (length l)) as Hu.
  { unfold u32. split; [apply Z.mod_pos_bound; lia | apply Z.mod_le; lia]. }
  destruct (lookup_lt_is_Some_2 l (Z.to_nat (u32 (h mod Z.of_nat (length l)))))
    as [s Hs]; [lia|].
  exists s. split; [done|]. unfold id_at. by rewrite Hs.
Qed.

(** *** Selection *)

Section SelectionFacts.

Variable hasher : string → Z.
Variable uniform_real : float → float.

(** With no node marked healthy the selection returns the empty string and
    changes nothing. *)
Lemma select_server_none_healthy client_ip lb :
  healthy_servers lb = [] →
  select_server hasher uniform_real client_ip lb = ("", lb).
Proof.
  intros H. unfold select_server. rewrite H. by destruct (servers_ lb).
Qed.

(** Once some node is healthy, the strategies run over the whole of
    [servers_]: [healthy_servers] is only tested for emptiness. *)
Lemma select_server_some_healthy client_ip lb :
  healthy_servers lb ≠ [] →
  select_server hasher uniform_real client_ip lb
  = match strategy_ lb with
    | ROUND_ROBIN => select_round_robin lb
    | LEAST_CONNECTIONS => (select_least_connections lb, lb)
    | LEAST_LOAD => (select_least_load lb, lb)
    | WEIGHTED_ROUND_ROBIN => (select_weighted_round_robin uniform_real lb, lb)
    | IP_HASH => (select_ip_hash hasher client_ip lb, lb)
    end.
Proof.
  intros H. unfold select_server.
  destruct (servers_ lb) eqn:E.
  - exfalso. apply H. unfold healthy_servers. by rewrite E.
  - by destruct (healthy_servers lb).
Qed.

(** C9.  Under [IP_HASH] a selection leaves the balancer as it was, so a
    second selection for the same client IP on the unchanged node set
    returns the same server id; with a healthy node present that id is the one
    at index [hash(ip) mod servers_.size()]. *)
Theorem ip_hash_selection_is_deterministic client_ip lb :
  strategy_ lb = IP_HASH →
  let r := select_server hasher uniform_real client_ip lb in
  r.2 = lb
  ∧ select_server hasher uniform_real client_ip r.2 = r
  ∧ (healthy_servers lb ≠ [] →
     r.1 = id_at (servers_ lb)
                 (u32 (hasher client_ip mod Z.of_nat (length (servers_ lb))))).
Proof.
  intros Hs. cbv zeta.
  assert (select_server hasher uniform_real client_ip lb
          = ((select_server hasher uniform_real client_ip lb).1, lb)) as Hr.
  { destruct (decide (healthy_servers lb = [])) as [Hh|Hh].
    - by rewrite select_server_none_healthy.
    - rewrite select_server_some_healthy by done. by rewrite Hs. }
  split_and!.
  - by rewrite Hr.
  - rewrite Hr at 1. simpl. done.
  - intros Hh. rewrite select_server_some_healthy by done. rewrite Hs. simpl.
    unfold select_ip_hash. destruct (servers_ lb) eqn:E; [|done].
    exfalso. apply Hh. unfold healthy_servers. by rewrite E.
Qed.

End SelectionFacts.

(** With no node marked healthy, every strategy returns the empty string and
    leaves the balancer (the round-robin index included) as it was. *)
Theorem no_healthy_server_gives_sentinel hasher uniform_real client_ip lb :
  Forall (λ s, is_healthy s = false) (servers_ lb) →
  select_server hasher uniform_real client_ip lb = ("", lb).
Proof.
  intros H. apply select_server_none_healthy. unfold healthy_servers.
  induction H as [|s l Hs _ IH]; [done|].
  rewrite filter_cons_False; [done | congruence].
Qed.

Lemma no_healthy_server_gives_sentinel_witness :
  let node sid := {| id := sid; host := "10.0.0.1"; port := 9001;
                     current_connections := 0; max_connections := 1000;
                     cpu_usage := 0; memory_usage := 0;
                     is_healthy := false; last_health_check := 0 |} in
  let lb := {| strategy_ := ROUND_ROBIN;
               servers_ := [node "game-1"; node "game-2"];
               round_robin_index_ := 7;
               connection_to_server_ := ∅ |} in
  select_server (λ _, 0) (λ _, 0%float) "192.168.0.17" lb = ("", lb).
Proof.
  cbv zeta. apply no_healthy_server_gives_sentinel.
  repeat constructor.
Defined.

Lemma ip_hash_selection_is_deterministic_witness :
  let hasher := λ s : string, Z.of_nat (String.length s) in
  let uniform_real := λ _ : float, 0%float in
  let node sid := {| id := sid; host := "10.0.0.1"; port := 9001;
                     current_connections := 0; max_connections := 1000;
                     cpu_usage := 0; memory_usage := 0;
                     is_healthy := true; last_health_check := 0 |} in
  let lb := {| strategy_ := IP_HASH;
               servers_ := [node "game-1"; node "game-2"; node "game-3"];
               round_robin_index_ := 0;
               connection_to_server_ := ∅ |} in
  let r := select_server hasher uniform_real "192.168.0.17" lb in
  r.2 = lb
  ∧ select_server hasher uniform_real "192.168.0.17" r.2 = r
  ∧ (healthy_servers lb ≠ [] →
     r.1 = id_at (servers_ lb)
                 (u32 (hasher "192.168.0.17" mod Z.of_nat (length (servers_ lb))))).
Proof.
  cbv zeta. apply ip_hash_selection_is_deterministic. reflexivity.
Defined.

(** What [select_least_connections] computes: a node whose counter is least
    among all of [servers_], healthy or not. *)
Lemma min_element_from_least {A : Type} (key : A → Z) (smallest : A) (l : list A) :
  let r := min_element_from (λ a b, key a <? key b) smallest l in
  r ∈ smallest :: l ∧ ∀ y, y ∈ smallest :: l → key r <= key y.
Proof.
  revert smallest. induction l as [|x l IH]; intros smallest; cbv zeta.
  - simpl. split; [by left|]. intros y ->%list_elem_of_singleton. lia.
  - cbn [min_element_from].
    destruct (IH (if key x <? key smallest then x else smallest)) as [Hin Hle].
    split.
    + apply elem_of_cons in Hin as [->|Hin].
      * destruct (key x <? key smallest); [right; left | left].
      * by do 2 right.
    + intros y Hy.
      assert (key (min_element_from (λ a b, key a <? key b)
                     (if key x <? key smallest then x else smallest) l)
              <= key (if key x <? key smallest then x else smallest)) as Hs
        by (apply Hle; left).
      apply elem_of_cons in Hy as [->|Hy]; [|apply elem_of_cons in Hy as [->|Hy]].
      * destruct (Z.ltb_spec (key x) (key smallest)); lia.
      * destruct (Z.ltb_spec (key x) (key smallest)); lia.
      * apply Hle. by right.
Qed.

Theorem least_connections_is_least_of_all lb :
  servers_ lb ≠ [] →
  ∃ s, s ∈ servers_ lb
       ∧ select_least_connections lb = id s
       ∧ ∀ y, y ∈ servers_ lb → current_connections s <= current_connections y.
Proof.
  intros H. unfold select_least_connections, min_element.
  destruct (servers_ lb) as [|x l]; [done|].
  destruct (min_element_from_least current_connections x l) as [Hin Hle].
  eauto.
Qed.

Lemma least_connections_is_least_of_all_witness :
  let node sid n h := {| id := sid; host := "10.0.0.1"; port := 9001;
                         current_connections := n; max_connections := 1000;
                         cpu_usage := 0; memory_usage := 0;
                         is_healthy := h; last_health_check := 0 |} in
  let lb := {| strategy_ := LEAST_CONNECTIONS;
               servers_ := [node "a" 7 true; node "b" 3 false; node "c" 4 true];
               round_robin_index_ := 0;
               connection_to_server_ := ∅ |} in
  ∃ s, s ∈ servers_ lb
       ∧ select_least_connections lb = id s
       ∧ ∀ y, y ∈ servers_ lb → current_connections s <= current_connections y.
Proof.
  cbv zeta. apply least_connections_is_least_of_all. discriminate.
Defined.

(** C3, evaluated on the code.  [s1] is marked unhealthy and [s2] healthy, so
    the emptiness test on [healthy_servers] passes; every strategy then
    indexes [servers_] and returns the unhealthy ["s1"]: round robin at index
    0, least connections and least load because [s1] is idle, the weighted
    draw when the drawn value is 0, and the IP hash for every client IP in
    one of the two orders of the nodes. *)
Theorem select_server_returns_unhealthy_node :
  let node sid n h := {| id := sid; host := "10.0.0.1"; port := 9001;
                         current_connections := n; max_connections := 1000;
                         cpu_usage := 0; memory_usage := 0;
                         is_healthy := h; last_health_check := 0 |} in
  let s1 := node "s1" 0 false in
  let s2 := node "s2" 5 true in
  let lb strategy l := {| strategy_ := strategy; servers_ := l;
                          round_robin_index_ := 0;
                          connection_to_server_ := ∅ |} in
  healthy_servers (lb ROUND_ROBIN [s1; s2]) = [s2]
  ∧ (∀ hasher uniform_real ip,
       (select_server hasher uniform_real ip (lb ROUND_ROBIN [s1; s2])).1 = "s1"
       ∧ (select_server hasher uniform_real ip (lb LEAST_CONNECTIONS [s1; s2])).1 = "s1"
       ∧ (select_server hasher uniform_real ip (lb LEAST_LOAD [s1; s2])).1 = "s1")
  ∧ (∀ hasher ip,
       (select_server hasher (λ _, 0%float) ip
                      (lb WEIGHTED_ROUND_ROBIN [s1; s2])).1 = "s1")
  ∧ (∀ hasher uniform_real ip,
       (select_server hasher uniform_real ip (lb IP_HASH [s1; s2])).1 = "s1"
       ∨ (select_server hasher uniform_real ip (lb IP_HASH [s2; s1])).1 = "s1").
Proof.
  cbv zeta. split_and!.
  - reflexivity.
  - intros. vm_compute. done.
  - intros. vm_compute. done.
  - intros hasher uniform_real ip.
    rewrite !select_server_some_healthy by (vm_compute; discriminate).
    cbn [strategy_ fst]. unfold select_ip_hash. cbn [servers_ length].
    pose proof (Z.mod_pos_bound (hasher ip) 2 ltac:(lia)) as Hm.
    change (Z.of_nat 2) with 2.
    destruct (decide (hasher ip mod 2 = 0)) as [->|Hne].
    + left. reflexivity.
    + right. replace (hasher ip mod 2) with 1 by lia. reflexivity.
Qed.

(** C4, evaluated on the code.  The healthy node [busy] holds 5 connections
    and the unhealthy node [idle] none: least connections and least load both
    return ["idle"], the least of all nodes, not the least healthy one. *)
Theorem least_selection_returns_unhealthy_node :
  let idle := {| id := "idle"; host := "10.0.0.1"; port := 9001;
                 current_connections := 0; max_connections := 1000;
                 cpu_usage := 0; memory_usage := 0;
                 is_healthy := false; last_health_check := 0 |} in
  let busy := {| id := "busy"; host := "10.0.0.2"; port := 9001;
                 current_connections := 5; max_connections := 1000;
                 cpu_usage := 0.5; memory_usage := 0.5;
                 is_healthy := true; last_health_check := 0 |} in
  let lb strategy := {| strategy_ := strategy; servers_ := [busy; idle];
                        round_robin_index_ := 0;
                        connection_to_server_ := ∅ |} in
  healthy_servers (lb LEAST_CONNECTIONS) = [busy]
  ∧ get_load_score idle = 0%float
  ∧ get_load_score busy = (0.5 * 0.4 + 0.5 * 0.3 + 5 / 1000 * 0.3)%float
  ∧ (get_load_score idle <? get_load_score busy)%float = true
  ∧ ∀ hasher uniform_real ip,
      (select_server hasher uniform_real ip (lb LEAST_CONNECTIONS)).1 = "idle"
      ∧ (select_server hasher uniform_real ip (lb LEAST_LOAD)).1 = "idle".
Proof.
  cbv zeta. split_and!; try reflexivity.
  intros. vm_compute. done.
Qed.

(** *** Assignment *)

Lemma can_accept_connection_spec s :
  can_accept_connection s = true
  ↔ is_healthy s = true
    ∧ current_connections s < max_connections s
    ∧ (get_load_score s <? 0.8)%float = true.
Proof.
  unfold can_accept_connection. rewrite !andb_true_iff, Z.ltb_lt. tauto.
Qed.

Lemma at_capacity_cannot_accept s :
  max_connections s <= current_connections s → can_accept_connection s = false.
Proof.
  intros H. apply not_true_is_false. intros (_ & Hlt & _)%can_accept_connection_spec.
  lia.
Qed.

Lemma assign_connection_refused sid cid lb i s :
  find_server sid (servers_ lb) = Some (i, s) →
  can_accept_connection s = false →
  assign_connection sid cid lb = (false, lb).
Proof. intros Hf Hc. unfold assign_connection. by rewrite Hf, Hc. Qed.

(** C7.  [assign_connection] tests [can_accept_connection] on the node as it
    is when the assignment is made.  It fails when the server id is unknown,
    and when the node found cannot accept — in particular when its counter has
    reached its maximum; a failed call leaves the balancer unchanged.  It
    succeeds exactly when the node found is healthy, below its maximum and
    scores below 0.8; then that node's counter is one higher, every other
    node is as before, and the connection is mapped to the server id. *)
Theorem assign_connection_revalidates sid cid lb :
  let r := assign_connection sid cid lb in
  (find_server sid (servers_ lb) = None → r = (false, lb))
  ∧ (∀ i s, find_server sid (servers_ lb) = Some (i, s) →
            max_connections s <= current_connections s → r = (false, lb))
  ∧ (∀ i s, find_server sid (servers_ lb) = Some (i, s) →
            can_accept_connection s = false → r = (false, lb))
  ∧ (r.1 = false → r.2 = lb)
  ∧ (r.1 = true ↔
     ∃ i s, find_server sid (servers_ lb) = Some (i, s)
            ∧ is_healthy s = true
            ∧ current_connections s < max_connections s
            ∧ (get_load_score s <? 0.8)%float = true)
  ∧ (∀ i s, find_server sid (servers_ lb) = Some (i, s) →
            can_accept_connection s = true →
            r.1 = true
            ∧ servers_ r.2 !! i
              = Some {| id := id s; host := host s; port := port s;
                        current_connections := u32 (current_connections s + 1);
                        max_connections := max_connections s;
                        cpu_usage := cpu_usage s;
                        memory_usage := memory_usage s;
                        is_healthy := is_healthy s;
                        last_health_check := last_health_check s |}
            ∧ (0 <= current_connections s → max_connections s <= UINT32_MAX →
               current_connections <$> servers_ r.2 !! i
               = Some (current_connections s + 1))
            ∧ (∀ j, j ≠ i → servers_ r.2 !! j = servers_ lb !! j)
            ∧ length (servers_ r.2) = length (servers_ lb)
            ∧ connection_to_server_ r.2
              = <[cid := sid]> (connection_to_server_ lb)
            ∧ strategy_ r.2 = strategy_ lb
            ∧ round_robin_index_ r.2 = round_robin_index_ lb).
Proof.
  cbv zeta. unfold assign_connection.
  destruct (find_server sid (servers_ lb)) as [[i s]|] eqn:Hf.
  - destruct (can_accept_connection s) eqn:Hc; simpl.
    + split_and!; try done.
      * intros i' s' [= <- <-] Hcap.
        rewrite at_capacity_cannot_accept in Hc by done. done.
      * intros i' s' [= <- <-] Hc'. congruence.
      * split; [|done]. intros _. exists i, s.
        by apply can_accept_connection_spec in Hc as (? & ? & ?).
      * intros i' s' [= <- <-] _.
        apply find_server_Some in Hf as (Hi & _).
        apply can_accept_connection_spec in Hc as (_ & Hlt & _).
        assert (<[i := set_current_connections
                          (u32 (current_connections s + 1)) s]> (servers_ lb) !! i
                = Some (set_current_connections
                          (u32 (current_connections s + 1)) s)) as Hnew
          by (apply list_lookup_insert_eq; by eapply lookup_lt_Some).
        split_and!; try done.
        -- intros H0 Hmax. rewrite Hnew. simpl. f_equal. apply u32_id. lia.
        -- intros j Hj. by apply list_lookup_insert_ne.
        -- apply length_insert.
    + split_and!; try done.
      * split; [done|]. intros (i' & s' & [= <- <-] & H1 & H2 & H3).
        assert (can_accept_connection s = true)
          by (by apply can_accept_connection_spec).
        congruence.
      * intros i' s' [= <- <-] Hc'. congruence.
  - split_and!; try done.
    split; [done|]. intros (i & s & H & _). done.
Qed.

(** A node filled to its maximum is still recommended by the selection (it is
    healthy), and the assignment that follows is refused; an assignment to a
    node with room takes its counter from 0 to 1 and maps the connection. *)
Lemma assign_connection_revalidates_witness :
  let node n := {| id := "game-1"; host := "10.0.0.1"; port := 9001;
                   current_connections := n; max_connections := 2;
                   cpu_usage := 0.1; memory_usage := 0.1;
                   is_healthy := true; last_health_check := 0 |} in
  let lb n := {| strategy_ := ROUND_ROBIN; servers_ := [node n];
                 round_robin_index_ := 0;
                 connection_to_server_ := ∅ |} in
  let sel := select_server (λ _, 0) (λ _, 0%float) "192.168.0.17" (lb 2) in
  (sel.1 = "game-1"
   ∧ assign_connection "game-1" "conn_1" sel.2 = (false, sel.2))
  ∧ ((assign_connection "game-1" "conn_1" (lb 0)).1 = true
     ∧ current_connections
         <$> servers_ (assign_connection "game-1" "conn_1" (lb 0)).2 !! 0%nat
       = Some 1
     ∧ connection_to_server_ (assign_connection "game-1" "conn_1" (lb 0)).2
         !! "conn_1" = Some "game-1").
Proof.
  cbv zeta. split.
  - split; [reflexivity|].
    match goal with |- assign_connection ?sid ?cid ?lb = _ =>
      destruct (assign_connection_revalidates sid cid lb) as (_ & H & _)
    end.
    apply (H 0%nat {| id := "game-1"; host := "10.0.0.1"; port := 9001;
                      current_connections := 2; max_connections := 2;
                      cpu_usage := 0.1; memory_usage := 0.1;
                      is_healthy := true; last_health_check := 0 |}).
    + reflexivity.
    + simpl. lia.
  - match goal with |- (assign_connection ?sid ?cid ?lb).1 = _ ∧ _ =>
      destruct (assign_connection_revalidates sid cid lb)
        as (_ & _ & _ & _ & _ & H)
    end.
    destruct (H 0%nat {| id := "game-1"; host := "10.0.0.1"; port := 9001;
                         current_connections := 0; max_connections := 2;
                         cpu_usage := 0.1; memory_usage := 0.1;
                         is_healthy := true; last_health_check := 0 |}
                eq_refl eq_refl) as (H1 & _ & H3 & _ & _ & H6 & _).
    split_and!.
    + exact H1.
    + apply H3; vm_compute; discriminate.
    + rewrite H6. reflexivity.
Defined.

(** *** Release *)

Lemma release_connection_map sid cid lb :
  connection_to_server_ (release_connection sid cid lb)
  = delete cid (connection_to_server_ lb).
Proof.
  unfold release_connection.
  by destruct (find_server sid (servers_ lb)) as [[i s]|].
Qed.

Lemma release_connection_unknown_server sid cid lb :
  find_server sid (servers_ lb) = None →
  servers_ (release_connection sid cid lb) = servers_ lb.
Proof. intros H. unfold release_connection. by rewrite H. Qed.

Lemma release_connection_known_server sid cid lb i s :
  find_server sid (servers_ lb) = Some (i, s) →
  servers_ (release_connection sid cid lb)
  = <[i := set_current_connections (u32 (current_connections s - 1)) s]>
      (servers_ lb).
Proof. intros H. unfold release_connection. by rewrite H. Qed.

(** C5 (as amended).  The two halves of [release_connection] are independent.
    It changes no node when the server id is not registered, and leaves the
    assignment map as it is when the connection id is not assigned; it is a
    no-op when both are unknown.  Whenever the server id is registered, the
    node found has its counter decremented once, modulo 2^32 (from [c] to
    [c - 1] when [c] is at least 1), its other fields kept, and no other
    node changes, whether or not the connection is assigned; and the
    connection's mapping is always dropped, other mappings kept, whether or
    not the server id is registered. *)
Theorem release_connection_halves_are_independent sid cid lb :
  let lb' := release_connection sid cid lb in
  (find_server sid (servers_ lb) = None → servers_ lb' = servers_ lb)
  ∧ (connection_to_server_ lb !! cid = None →
     connection_to_server_ lb' = connection_to_server_ lb)
  ∧ (find_server sid (servers_ lb) = None →
     connection_to_server_ lb !! cid = None → lb' = lb)
  ∧ (∀ i s, find_server sid (servers_ lb) = Some (i, s) →
            servers_ lb' !! i
            = Some {| id := id s; host := host s; port := port s;
                      current_connections := u32 (current_connections s - 1);
                      max_connections := max_connections s;
                      cpu_usage := cpu_usage s;
                      memory_usage := memory_usage s;
                      is_healthy := is_healthy s;
                      last_health_check := last_health_check s |}
            ∧ (1 <= current_connections s <= UINT32_MAX →
               current_connections <$> servers_ lb' !! i
               = Some (current_connections s - 1))
            ∧ (∀ j, j ≠ i → servers_ lb' !! j = servers_ lb !! j)
            ∧ length (servers_ lb') = length (servers_ lb))
  ∧ connection_to_server_ lb' !! cid = None
  ∧ (∀ c, c ≠ cid →
          connection_to_server_ lb' !! c = connection_to_server_ lb !! c).
Proof.
  cbv zeta. split_and!.
  - apply release_connection_unknown_server.
  - intros H. rewrite release_connection_map. by apply delete_id.
  - intros Hs Hc. unfold release_connection. rewrite Hs.
    rewrite delete_id by done. by destruct lb.
  - intros i s Hf. rewrite (release_connection_known_server _ _ _ _ _ Hf).
    apply find_server_Some in Hf as (Hi & _).
    assert (<[i := set_current_connections
                      (u32 (current_connections s - 1)) s]> (servers_ lb) !! i
            = Some (set_current_connections
                      (u32 (current_connections s - 1)) s)) as Hnew
      by (apply list_lookup_insert_eq; by eapply lookup_lt_Some).
    split_and!.
    + exact Hnew.
    + intros Hc. rewrite Hnew. simpl. f_equal. apply u32_id. lia.
    + intros j Hj. by apply list_lookup_insert_ne.
    + apply length_insert.
  - rewrite release_connection_map. apply lookup_delete_eq.
  - intros c Hc. rewrite release_connection_map. by apply lookup_delete_ne.
Qed.

Lemma release_connection_halves_are_independent_witness :
  let s2 := {| id := "s2"; host := "10.0.0.2"; port := 9001;
               current_connections := 5; max_connections := 1000;
               cpu_usage := 0; memory_usage := 0;
               is_healthy := true; last_health_check := 0 |} in
  let lb := {| strategy_ := LEAST_LOAD; servers_ := [s2];
               round_robin_index_ := 0;
               connection_to_server_ := {["c1" := "s2"]} |} in
  release_connection "ghost" "c9" lb = lb
  ∧ current_connections <$> servers_ (release_connection "s2" "c1" lb) !! 0%nat
    = Some 4
  ∧ current_connections <$> servers_ (release_connection "s2" "c9" lb) !! 0%nat
    = Some 4
  ∧ connection_to_server_ (release_connection "s2" "c1" lb) !! "c1" = None.
Proof.
  cbv zeta. split_and!.
  - match goal with |- release_connection ?sid ?cid ?lb = _ =>
      destruct (release_connection_halves_are_independent sid cid lb)
        as (_ & _ & H & _)
    end.
    apply H; reflexivity.
  - match goal with |- _ <$> servers_ (release_connection ?sid ?cid ?lb) !! _ = _ =>
      destruct (release_connection_halves_are_independent sid cid lb)
        as (_ & _ & _ & H & _)
    end.
    refine (proj1 (proj2 (H 0%nat _ eq_refl)) _). vm_compute.
    split; discriminate.
  - match goal with |- _ <$> servers_ (release_connection ?sid ?cid ?lb) !! _ = _ =>
      destruct (release_connection_halves_are_independent sid cid lb)
        as (_ & _ & _ & H & _)
    end.
    refine (proj1 (proj2 (H 0%nat _ eq_refl)) _). vm_compute.
    split; discriminate.
  - match goal with |- connection_to_server_ (release_connection ?sid ?cid ?lb) !! _ = _ =>
      destruct (release_connection_halves_are_independent sid cid lb)
        as (_ & _ & _ & _ & H & _)
    end.
    exact H.
Defined.

(** C5, refuted as stated.  With one node ["s2"] holding 5 connections and
    ["c1"] assigned to it: releasing ["c1"] from the unregistered server
    ["ghost"] drops the mapping of ["c1"], and releasing the unassigned
    connection ["c9"] from ["s2"] takes the node's counter from 5 to 4. *)
Lemma release_connection_of_unknown_id_is_not_a_noop :
  let s2 := {| id := "s2"; host := "10.0.0.2"; port := 9001;
               current_connections := 5; max_connections := 1000;
               cpu_usage := 0; memory_usage := 0;
               is_healthy := true; last_health_check := 0 |} in
  let lb := {| strategy_ := LEAST_LOAD; servers_ := [s2];
               round_robin_index_ := 0;
               connection_to_server_ := {["c1" := "s2"]} |} in
  (find_server "ghost" (servers_ lb) = None
   ∧ connection_to_server_ lb !! "c1" = Some "s2"
   ∧ connection_to_server_ (release_connection "ghost" "c1" lb) !! "c1" = None)
  ∧ (connection_to_server_ lb !! "c9" = None
     ∧ current_connections <$> get_server "s2" lb = Some 5
     ∧ current_connections <$> get_server "s2" (release_connection "s2" "c9" lb)
       = Some 4).
Proof. cbv zeta. split_and!; reflexivity. Qed.

(** C10.  Releasing from a registered server whose counter is 0 wraps the
    counter to 4294967295, whatever the connection id: the decrement is not
    guarded.  The node then reports itself full, and no later assignment to it
    is accepted. *)
Theorem release_wraps_zero_counter sid cid lb i s :
  find_server sid (servers_ lb) = Some (i, s) →
  current_connections s = 0 →
  let lb' := release_connection sid cid lb in
  servers_ lb' !! i = Some (set_current_connections 4294967295 s)
  ∧ get_server sid lb' = Some (set_current_connections 4294967295 s)
  ∧ (max_connections s <= UINT32_MAX →
     ∀ cid', assign_connection sid cid' lb' = (false, lb')).
Proof.
  intros Hf H0. cbv zeta.
  assert (find_server sid (servers_ (release_connection sid cid lb))
          = Some (i, set_current_connections 4294967295 s)) as Hf'.
  { rewrite (release_connection_known_server _ _ _ _ _ Hf), H0.
    change (u32 (0 - 1)) with 4294967295.
    by apply (find_server_insert sid _ i s). }
  split_and!.
  - by apply find_server_Some in Hf' as (? & _).
  - unfold get_server. by rewrite Hf'.
  - intros Hmax cid'.
    apply (assign_connection_refused _ _ _ _ _ Hf').
    apply at_capacity_cannot_accept. unfold UINT32_MAX in Hmax. simpl. lia.
Qed.

Lemma release_wraps_zero_counter_witness :
  let s1 := {| id := "game-1"; host := "10.0.0.1"; port := 9001;
               current_connections := 0; max_connections := 1000;
               cpu_usage := 0; memory_usage := 0;
               is_healthy := true; last_health_check := 0 |} in
  let lb := {| strategy_ := LEAST_LOAD; servers_ := [s1];
               round_robin_index_ := 0;
               connection_to_server_ := ∅ |} in
  let lb' := release_connection "game-1" "conn_1" lb in
  servers_ lb' !! 0%nat = Some (set_current_connections 4294967295 s1)
  ∧ get_server "game-1" lb' = Some (set_current_connections 4294967295 s1)
  ∧ (max_connections s1 <= UINT32_MAX →
     ∀ cid', assign_connection "game-1" cid' lb' = (false, lb')).
Proof.
  cbv zeta. apply release_wraps_zero_counter; reflexivity.
Defined.

End LoadBalancerFacts.

(** ** Connection manager: further laws *)

Module ConnectionManagerLaws.
Import ConnectionManager BaseAgent ConnectionManagerFacts.

(** *** Capacity *)

Lemma size_insert_le (c : gmap string ConnectionInfo) cid r :
  (size (<[cid := r]> c) <= S (size c))%nat.
Proof. rewrite map_size_insert. destruct (c !! cid); simpl; lia. Qed.

Lemma disconnect_within_capacity cid a :
  current_connections_ a <= UINT32_MAX →
  within_capacity a → within_capacity (handle_disconnection cid a).
Proof.
  intros Hmax [Hs Hc]. destruct (connections_ a !! cid) as [r|] eqn:E.
  - destruct (disconnect_known _ _ _ E) as [Hcs Hn].
    pose proof (size_delete_known _ _ _ E) as Hsz.
    unfold within_capacity. rewrite Hcs, Hn, disconnect_max.
    rewrite u32_id by lia. lia.
  - by rewrite disconnect_unknown.
Qed.

Lemma call_within_capacity c a :
  max_connections_ a <= UINT32_MAX →
  within_capacity a → within_capacity (call c a).
Proof.
  intros Hmax [Hs Hc].
  destruct c as [now cid ip|cid|cid uid|now cid|now timeout]; simpl.
  - destruct (Z.le_gt_cases (max_connections_ a) (current_connections_ a)) as [H|H].
    + by rewrite admit_at_capacity.
    + destruct (admit_below_capacity now cid ip a) as (_ & Hcs & Hn); [lia|].
      pose proof (call_max (Admit now cid ip) a) as Hm. simpl in Hm.
      unfold within_capacity. cbv zeta in Hcs, Hn. rewrite Hcs, Hn, Hm.
      pose proof (size_insert_le (connections_ a) cid (fresh_info now cid ip)).
      rewrite u32_id by lia. lia.
  - apply disconnect_within_capacity; [lia | done].
  - unfold authenticate_connection.
    destruct (connections_ a !! cid) as [r|] eqn:E; [|done].
    unfold within_capacity; simpl. by rewrite map_size_insert_Some.
  - unfold update_activity.
    destruct (connections_ a !! cid) as [r|] eqn:E; [|done].
    unfold within_capacity; simpl. by rewrite map_size_insert_Some.
  - unfold cleanup_inactive_connections.
    assert (∀ ids b, max_connections_ b <= UINT32_MAX → within_capacity b →
              within_capacity
                (foldl (λ acc cid, handle_disconnection cid acc) b ids)) as Hfold.
    { induction ids as [|i ids IH]; intros b Hb Hw; [done|].
      cbn [foldl]. apply IH.
      - by rewrite disconnect_max.
      - apply disconnect_within_capacity; [destruct Hw; lia | done]. }
    pose proof (Hfold (collect_inactive now timeout (connections_ a)) a Hmax
                      (conj Hs Hc)) as H.
    by case_match.
Qed.

(** Whatever calls are made, duplicate admissions included, the counter never
    exceeds the configured maximum and never falls below the number of
    records held; in particular it never wraps and the registry never holds
    more than [max_connections_] records. *)
Theorem run_within_capacity cs a :
  max_connections_ a <= UINT32_MAX →
  within_capacity a →
  within_capacity (run cs a)
  ∧ Z.of_nat (size (connections_ (run cs a))) <= max_connections_ a.
Proof.
  intros Hmax Hw.
  assert (within_capacity (run cs a) ∧ max_connections_ (run cs a) = max_connections_ a)
    as [[H1 H2] H3].
  { revert a Hmax Hw. induction cs as [|c cs IH]; intros a Hmax Hw; [done|].
    unfold run. cbn [foldl].
    destruct (IH (call c a)) as [H1 H2].
    - by rewrite call_max.
    - by apply call_within_capacity.
    - split; [done|]. unfold run in H2. by rewrite H2, call_max. }
  split; [done|]. lia.
Qed.

Lemma run_within_capacity_witness :
  let cs := [Admit 0 "c1" "10.0.0.1"; Admit 1 "c1" "10.0.0.1";
             Admit 2 "c2" "10.0.0.2"; Admit 3 "c3" "10.0.0.3";
             Remove "c1"; Sweep 5000000000 1] in
  within_capacity (run cs (new_agent 2))
  ∧ Z.of_nat (size (connections_ (run cs (new_agent 2)))) <= 2.
Proof.
  cbv zeta. apply (run_within_capacity _ (new_agent 2)).
  - vm_compute. discriminate.
  - split; vm_compute; discriminate.
Defined.

(** *** Authentication *)

Lemma set_authenticated_twice uid r :
  set_authenticated uid (set_authenticated uid r) = set_authenticated uid r.
Proof. by destruct r. Qed.

(** Authenticating a live id stores the user id and sets the flag on that
    record only, keeping its timestamps, address and byte counters, every
    other record and the counter; authenticating an unknown id changes
    nothing at all, metrics included. *)
Theorem authenticate_marks_one_record cid uid a :
  (connections_ a !! cid = None → authenticate_connection cid uid a = a)
  ∧ (∀ r, connections_ a !! cid = Some r →
       ∃ r', get_connection_info cid (authenticate_connection cid uid a) = Some r'
             ∧ user_id r' = uid ∧ is_authenticated r' = true
             ∧ connection_id r' = connection_id r
             ∧ ip_address r' = ip_address r
             ∧ connected_at r' = connected_at r
             ∧ last_activity r' = last_activity r
             ∧ bytes_sent r' = bytes_sent r
             ∧ bytes_received r' = bytes_received r)
  ∧ (∀ c, c ≠ cid →
       get_connection_info c (authenticate_connection cid uid a)
       = get_connection_info c a)
  ∧ current_connections_ (authenticate_connection cid uid a)
    = current_connections_ a
  ∧ size (connections_ (authenticate_connection cid uid a))
    = size (connections_ a).
Proof.
  unfold authenticate_connection, get_connection_info.
  destruct (connections_ a !! cid) as [r|] eqn:E; simpl.
  - split_and!; [done | | | done |].
    + intros r0 [= <-]. exists (set_authenticated uid r).
      rewrite lookup_insert_eq. by split_and!.
    + intros c Hc. by rewrite lookup_insert_ne.
    + apply map_size_insert_Some. by rewrite E.
  - split_and!; done.
Qed.

Lemma authenticate_marks_one_record_witness :
  let a := (handle_new_connection 10 "c1" "10.0.0.1" (new_agent 100)).2 in
  ∃ r', get_connection_info "c1" (authenticate_connection "c1" "u1" a) = Some r'
        ∧ user_id r' = "u1" ∧ is_authenticated r' = true
        ∧ connection_id r' = "c1"
        ∧ ip_address r' = "10.0.0.1"
        ∧ connected_at r' = 10
        ∧ last_activity r' = 10
        ∧ bytes_sent r' = 0
        ∧ bytes_received r' = 0.
Proof.
  cbv zeta.
  match goal with |- context [authenticate_connection ?c ?u ?a] =>
    destruct (authenticate_marks_one_record c u a) as (_ & H & _)
  end.
  apply (H (fresh_info 10 "c1" "10.0.0.1")). reflexivity.
Defined.

(** Authenticating twice with the same user id is the same as authenticating
    once: registry, counter and metrics all agree. *)
Theorem authenticate_idempotent cid uid a :
  authenticate_connection cid uid (authenticate_connection cid uid a)
  = authenticate_connection cid uid a.
Proof.
  unfold authenticate_connection at 2.
  destruct (connections_ a !! cid) as [r|] eqn:E.
  - unfold authenticate_connection. cbn [connections_ update_metric set_connections].
    rewrite lookup_insert_eq.
    cbn [connections_ update_metric set_connections current_connections_
         max_connections_ metrics_].
    rewrite set_authenticated_twice, !insert_insert_eq, E.
    unfold update_metric, set_connections. cbn [metrics_]. f_equal.
    apply insert_insert_eq.
  - unfold authenticate_connection. by rewrite E.
Qed.

(** *** Sweeping again, and touching before a sweep *)

Lemma collect_inactive_after_cleanup now timeout a :
  collect_inactive now timeout
    (connections_ (cleanup_inactive_connections now timeout a)) = [].
Proof.
  apply elem_of_nil_inv. intros k (r & Hr & Hi)%elem_of_collect_inactive.
  rewrite cleanup_connections in Hr.
  apply map_lookup_filter_Some in Hr as [_ Hr]. simpl in Hr. congruence.
Qed.

(** A second sweep at the same instant with the same timeout finds nothing
    to do: the agent, metrics included, is as the first sweep left it. *)
Theorem sweep_idempotent now timeout a :
  cleanup_inactive_connections now timeout
    (cleanup_inactive_connections now timeout a)
  = cleanup_inactive_connections now timeout a.
Proof.
  unfold cleanup_inactive_connections at 1.
  by rewrite collect_inactive_after_cleanup.
Qed.



(** *** Removal and re-admission *)

(** Once a live id has been removed, the same id is admitted again: the
    second admission succeeds with a fresh record and the counter is back at
    its value before the removal. *)
Theorem disconnect_then_admit now cid ip a r :
  connections_ a !! cid = Some r →
  1 <= current_connections_ a <= max_connections_ a →
  max_connections_ a <= UINT32_MAX →
  let res := handle_new_connection now cid ip (handle_disconnection cid a) in
  res.1 = true
  ∧ connections_ res.2 = <[cid := fresh_info now cid ip]> (connections_ a)
  ∧ current_connections_ res.2 = current_connections_ a.
Proof.
  intros Hr Hc Hmax.
  destruct (disconnect_known _ _ _ Hr) as [Hcs Hn].
  rewrite u32_id in Hn by lia.
  destruct (admit_below_capacity now cid ip (handle_disconnection cid a))
    as (H1 & H2 & H3); [rewrite Hn, disconnect_max; lia|].
  cbv zeta in *. rewrite H1, H2, H3, Hcs, Hn.
  split_and!; [done | apply insert_delete_eq |].
  rewrite u32_id by lia. lia.
Qed.

Lemma disconnect_then_admit_witness :
  let a := (handle_new_connection 0 "test_conn_1" "127.0.0.1" (new_agent 100)).2 in
  let res := handle_new_connection 7 "test_conn_1" "127.0.0.1"
               (handle_disconnection "test_conn_1" a) in
  res.1 = true
  ∧ connections_ res.2
    = <["test_conn_1" := fresh_info 7 "test_conn_1" "127.0.0.1"]> (connections_ a)
  ∧ current_connections_ res.2 = current_connections_ a.
Proof.
  cbv zeta.
  apply (disconnect_then_admit 7 "test_conn_1" "127.0.0.1" _
           (fresh_info 0 "test_conn_1" "127.0.0.1")).
  - reflexivity.
  - split; vm_compute; discriminate.
  - vm_compute. discriminate.
Defined.

(** *** Metrics and statistics *)

Lemma get_metric_update key value d a :
  get_metric key d (update_metric key value a) = value.
Proof. unfold get_metric, update_metric. simpl. by rewrite lookup_insert_eq. Qed.

Lemma get_metric_update_ne key key' value d a :
  key ≠ key' →
  get_metric key' d (update_metric key value a) = get_metric key' d a.
Proof.
  intros H. unfold get_metric, update_metric. simpl.
  by rewrite lookup_insert_ne.
Qed.

Lemma disconnect_mirrors cid a :
  get_metric "connections_total" 0 a = to_double (current_connections_ a) →
  get_metric "connections_total" 0 (handle_disconnection cid a)
  = to_double (current_connections_ (handle_disconnection cid a)).
Proof.
  intros H. unfold handle_disconnection.
  destruct (connections_ a !! cid); [|done].
  cbv zeta. rewrite get_metric_update_ne by done.
  by rewrite get_metric_update.
Qed.

Lemma call_mirrors c a :
  get_metric "connections_total" 0 a = to_double (current_connections_ a) →
  get_metric "connections_total" 0 (call c a)
  = to_double (current_connections_ (call c a)).
Proof.
  intros H.
  destruct c as [now cid ip|cid|cid uid|now cid|now timeout]; simpl.
  - unfold handle_new_connection. case_match; cbv zeta; simpl.
    + by rewrite get_metric_update_ne.
    + rewrite get_metric_update_ne by done. by rewrite get_metric_update.
  - by apply disconnect_mirrors.
  - unfold authenticate_connection. case_match; [|done].
    by rewrite get_metric_update_ne.
  - unfold update_activity. by case_match.
  - unfold cleanup_inactive_connections.
    assert (∀ ids b,
              get_metric "connections_total" 0 b
              = to_double (current_connections_ b) →
              get_metric "connections_total" 0
                (foldl (λ acc cid, handle_disconnection cid acc) b ids)
              = to_double (current_connections_
                  (foldl (λ acc cid, handle_disconnection cid acc) b ids)))
      as Hfold.
    { induction ids as [|i ids IH]; intros b Hb; [done|].
      cbn [foldl]. by apply IH, disconnect_mirrors. }
    pose proof (Hfold (collect_inactive now timeout (connections_ a)) a H) as H'.
    case_match; [done|]. by rewrite get_metric_update_ne.
Qed.

(** The metric ["connections_total"], read with default 0, always shows the
    admitted counter: every call that changes the counter writes the metric,
    and no call writes it otherwise. *)
Theorem connections_total_mirrors_counter cs a :
  get_metric "connections_total" 0 a = to_double (current_connections_ a) →
  get_metric "connections_total" 0 (run cs a)
  = to_double (current_connections_ (run cs a)).
Proof.
  revert a. induction cs as [|c cs IH]; intros a H; [done|].
  unfold run. cbn [foldl]. by apply IH, call_mirrors.
Qed.

Lemma connections_total_mirrors_counter_witness :
  let a := run [Admit 0 "c1" "10.0.0.1"; Admit 1 "c2" "10.0.0.2";
                Authenticate "c1" "u1"; Sweep 3000000000 1]
               (new_agent 100) in
  get_metric "connections_total" 0 a = to_double (current_connections_ a).
Proof.
  cbv zeta. apply connections_total_mirrors_counter. reflexivity.
Defined.

(** Authenticating a live record that is not yet authenticated raises the
    number of authenticated records by exactly one, and the statistics report
    the new number. *)
Theorem authenticate_raises_authenticated_count cid uid a r :
  connections_ a !! cid = Some r →
  is_authenticated r = false →
  let a' := authenticate_connection cid uid a in
  count_authenticated (connections_ a')
  = count_authenticated (connections_ a) + 1
  ∧ get_connection_stats a' !! "authenticated_connections"
    = Some (to_double (u32 (count_authenticated (connections_ a) + 1))).
Proof.
  intros Hr Hf. cbv zeta.
  assert (count_authenticated (connections_ (authenticate_connection cid uid a))
          = count_authenticated (connections_ a) + 1) as Hcount.
  { unfold authenticate_connection. rewrite Hr. simpl.
    unfold count_authenticated.
    rewrite map_filter_insert_True by done.
    rewrite map_size_insert_None; [lia|].
    apply map_lookup_filter_None. right. intros x Hx. simpl. congruence. }
  split; [done|].
  unfold get_connection_stats. rewrite lookup_insert_ne by done.
  by rewrite lookup_insert_eq, Hcount.
Qed.

Lemma authenticate_raises_authenticated_count_witness :
  let a := (handle_new_connection 10 "c1" "10.0.0.1" (new_agent 100)).2 in
  let a' := authenticate_connection "c1" "u1" a in
  count_authenticated (connections_ a')
  = count_authenticated (connections_ a) + 1
  ∧ get_connection_stats a' !! "authenticated_connections"
    = Some (to_double (u32 (count_authenticated (connections_ a) + 1))).
Proof.
  cbv zeta.
  apply (authenticate_raises_authenticated_count "c1" "u1" _
           (fresh_info 10 "c1" "10.0.0.1")); reflexivity.
Defined.

End ConnectionManagerLaws.

(** ** Load balancer: further laws *)

Module LoadBalancerLaws.
Import LoadBalancer LoadBalancerFacts.

(** *** Registering and removing servers *)

Lemma find_server_app_l sid l1 l2 i s :
  find_server sid l1 = Some (i, s) → find_server sid (l1 ++ l2) = Some (i, s).
Proof. unfold find_server. apply (list_find_app_l (λ s, id s = sid)). Qed.

Lemma find_server_snoc_fresh sid l s :
  find_server sid l = None → id s = sid →
  find_server sid (l ++ [s]) = Some (length l, s).
Proof.
  intros Hn Hid. unfold find_server in *.
  rewrite (list_find_app_r (λ s, id s = sid)) by done.
  simpl. rewrite decide_True by done. done.
Qed.

Lemma find_server_snoc_other sid l s :
  id s ≠ sid → find_server sid (l ++ [s]) = find_server sid l.
Proof.
  intros Hid. unfold find_server.
  destruct (list_find (λ s0, id s0 = sid) l) as [[i x]|] eqn:E.
  - by apply (list_find_app_l (λ s, id s = sid)).
  - rewrite (list_find_app_r (λ s, id s = sid)) by done.
    simpl. rewrite decide_False by done. done.
Qed.

(** [add_server] appends without looking the id up.  A new id is found
    afterwards, with no connections, zero gauges and marked healthy; an id
    that is already registered keeps resolving to the node registered first,
    so the node just added cannot be reached by its id; other ids resolve as
    before. *)
Theorem add_server_lookup now sid shost sport max_conn lb :
  length (servers_ (add_server now sid shost sport max_conn lb))
  = S (length (servers_ lb))
  ∧ (get_server sid lb = None →
     get_server sid (add_server now sid shost sport max_conn lb)
     = Some {| id := sid; host := shost; port := sport;
               current_connections := 0; max_connections := max_conn;
               cpu_usage := 0; memory_usage := 0; is_healthy := true;
               last_health_check := now |})
  ∧ (∀ s, get_server sid lb = Some s →
          get_server sid (add_server now sid shost sport max_conn lb) = Some s)
  ∧ (∀ sid', sid' ≠ sid →
          get_server sid' (add_server now sid shost sport max_conn lb)
          = get_server sid' lb).
Proof.
  unfold get_server, add_server. cbn [servers_ set_servers]. split_and!.
  - rewrite length_app. simpl. lia.
  - intros H. apply fmap_None in H.
    by rewrite (find_server_snoc_fresh _ _ _ H).
  - intros s ([i s'] & Hf & ->)%fmap_Some.
    by rewrite (find_server_app_l _ _ _ _ _ Hf).
  - intros sid' Hne. rewrite find_server_snoc_other; [done|]. simpl. congruence.
Qed.

Lemma add_server_lookup_witness :
  let lb := add_server 0 "game-1" "10.0.0.1" 9001 1000 (new_balancer LEAST_LOAD) in
  get_server "game-1" (add_server 50 "game-1" "10.0.0.9" 9009 5 lb)
  = Some {| id := "game-1"; host := "10.0.0.1"; port := 9001;
            current_connections := 0; max_connections := 1000;
            cpu_usage := 0; memory_usage := 0; is_healthy := true;
            last_health_check := 0 |}.
Proof.
  cbv zeta.
  match goal with |- get_server ?sid (add_server ?n ?sid ?h ?p ?m ?lb) = _ =>
    destruct (add_server_lookup n sid h p m lb) as (_ & _ & H & _)
  end.
  apply H. reflexivity.
Defined.

(** Removing a server right after adding it under a new id gives the balancer
    back unchanged. *)
Theorem remove_server_undoes_add now sid shost sport max_conn lb :
  get_server sid lb = None →
  remove_server sid (add_server now sid shost sport max_conn lb) = lb.
Proof.
  intros H. apply fmap_None in H.
  unfold remove_server, add_server. cbn [servers_ set_servers].
  rewrite (find_server_snoc_fresh _ _ _ H) by done.
  rewrite delete_middle, app_nil_r. by destruct lb.
Qed.

Lemma remove_server_undoes_add_witness :
  let lb := add_server 0 "game-1" "10.0.0.1" 9001 1000 (new_balancer LEAST_LOAD) in
  remove_server "game-2" (add_server 5 "game-2" "10.0.0.2" 9001 500 lb) = lb.
Proof.
  cbv zeta. apply remove_server_undoes_add. reflexivity.
Defined.

Lemma find_server_delete_other sid sid' l i s :
  l !! i = Some s → id s = sid → sid' ≠ sid →
  snd <$> find_server sid' (delete i l) = snd <$> find_server sid' l.
Proof.
  unfold find_server. revert i.
  induction l as [|x l IH]; intros i Hi Hid Hne; [done|].
  destruct i as [|i]; simpl in *.
  - injection Hi as ->. rewrite decide_False by congruence.
    rewrite <- option_fmap_compose. by destruct (list_find _ l) as [[??]|].
  - destruct (decide (id x = sid')); [done|].
    rewrite <- !option_fmap_compose.
    specialize (IH i Hi Hid Hne).
    destruct (list_find _ (delete i l)) as [[??]|],
             (list_find _ l) as [[??]|]; simpl in *; congruence.
Qed.

(** [remove_server] removes the first node registered under the id and only
    that node: an unknown id changes nothing, other ids resolve as before,
    and the assignment map is never touched, so connections assigned to the
    removed server stay mapped to it.  When ids are registered once, the
    removed id no longer resolves and an assignment to it is refused. *)
Theorem remove_server_removes_one sid lb :
  (get_server sid lb = None → remove_server sid lb = lb)
  ∧ (is_Some (get_server sid lb) →
     S (length (servers_ (remove_server sid lb))) = length (servers_ lb))
  ∧ (∀ sid', sid' ≠ sid →
       get_server sid' (remove_server sid lb) = get_server sid' lb)
  ∧ connection_to_server_ (remove_server sid lb) = connection_to_server_ lb
  ∧ (NoDup (id <$> servers_ lb) →
     get_server sid (remove_server sid lb) = None
     ∧ ∀ cid, assign_connection sid cid (remove_server sid lb)
              = (false, remove_server sid lb)).
Proof.
  unfold get_server, remove_server.
  destruct (find_server sid (servers_ lb)) as [[i s]|] eqn:Hf; cbn [servers_ set_servers].
  - pose proof Hf as (Hi & Hid & _)%find_server_Some.
    split_and!; [done | | | done |].
    + intros _. rewrite length_delete by eauto. 
      apply lookup_lt_Some in Hi. lia.
    + intros sid' Hne. by apply (find_server_delete_other sid sid' _ i s).
    + intros Hnd.
      assert (find_server sid (delete i (servers_ lb)) = None) as Hgone.
      { apply find_server_None, Forall_forall. intros y Hy Hy_id.
        apply list_elem_of_lookup in Hy as [j Hj].
        assert (∃ j', j' ≠ i ∧ servers_ lb !! j' = Some y) as (j' & Hne & Hj').
        { destruct (decide (j < i)%nat).
          - exists j. split; [lia|]. by rewrite list_lookup_delete_lt in Hj by lia.
          - exists (S j). split; [lia|]. by rewrite list_lookup_delete_ge in Hj by lia. }
        apply Hne. eapply (NoDup_lookup _ j' i (id y)); [done | |].
        - by rewrite list_lookup_fmap, Hj'.
        - rewrite list_lookup_fmap, Hi. simpl. congruence. }
      split; [simpl; by rewrite Hgone|]. intros cid.
      unfold assign_connection. simpl. by rewrite Hgone.
  - split_and!; try done.
    + by intros [? [=]].
    + intros _. split; [by rewrite Hf|]. intros cid.
      unfold assign_connection. by rewrite Hf.
Qed.

Lemma remove_server_removes_one_witness :
  let lb := add_server 1 "game-2" "10.0.0.2" 9001 500
              (add_server 0 "game-1" "10.0.0.1" 9001 1000
                 (new_balancer LEAST_LOAD)) in
  let lb1 := (assign_connection "game-1" "conn_1" lb).2 in
  get_server "game-1" (remove_server "game-1" lb1) = None
  ∧ (∀ cid, assign_connection "game-1" cid (remove_server "game-1" lb1)
            = (false, remove_server "game-1" lb1)).
Proof.
  cbv zeta.
  match goal with |- get_server ?sid (remove_server ?sid ?lb) = _ ∧ _ =>
    destruct (remove_server_removes_one sid lb) as (_ & _ & _ & _ & H)
  end.
  apply H. apply (bool_decide_unpack _). vm_compute. exact I.
Defined.

(** *** Status pushes and the health check *)

Lemma get_server_fmap (f : ServerNode → ServerNode) sid l :
  (∀ s, id (f s) = id s) →
  snd <$> find_server sid (f <$> l) = f <$> (snd <$> find_server sid l).
Proof.
  intros Hf. unfold find_server. rewrite list_find_fmap.
  rewrite (list_find_ext ((λ s, id s = sid) ∘ f) (λ s, id s = sid))
    by (intros x; simpl; by rewrite Hf).
  by destruct (list_find _ l) as [[??]|].
Qed.

Lemma staleness_test now s :
  (5 * 60 * 1000000000 <? now - last_health_check s) = true
  ↔ 300000000000 < now - last_health_check s.
Proof. rewrite Z.ltb_lt. lia. Qed.

(** A status push is what the id resolves to afterwards: the gauges and the
    flag as pushed, the counter and the maximum as they were, stamped with
    the time of the push.  A health check made within five minutes of the push
    keeps the node as pushed; a health check made later marks it unhealthy,
    overriding a pushed [healthy = true]. *)
Theorem status_push_then_health_check t0 now sid cpu mem healthy lb s :
  get_server sid lb = Some s →
  let lb1 := update_server_status t0 sid cpu mem healthy lb in
  let pushed := {| id := id s; host := host s; port := port s;
                   current_connections := current_connections s;
                   max_connections := max_connections s;
                   cpu_usage := cpu; memory_usage := mem;
                   is_healthy := healthy; last_health_check := t0 |} in
  get_server sid lb1 = Some pushed
  ∧ (now - t0 <= 300000000000 →
     get_server sid (perform_health_check now lb1) = Some pushed)
  ∧ (300000000000 < now - t0 →
     get_server sid (perform_health_check now lb1)
     = Some {| id := id s; host := host s; port := port s;
               current_connections := current_connections s;
               max_connections := max_connections s;
               cpu_usage := cpu; memory_usage := mem;
               is_healthy := false; last_health_check := t0 |}
     ∧ is_healthy <$> get_server sid (perform_health_check now lb1)
       = Some false).
Proof.
  intros ([i s'] & Hf & ->)%fmap_Some. cbv zeta. simpl snd.
  assert (get_server sid (update_server_status t0 sid cpu mem healthy lb)
          = Some (set_status t0 cpu mem healthy s')) as H1.
  { unfold get_server, update_server_status. rewrite Hf. cbn [servers_ set_servers].
    by rewrite (find_server_insert sid _ i s' _ Hf). }
  split; [done|].
  unfold get_server in *. unfold perform_health_check. cbn [servers_ set_servers].
  rewrite get_server_fmap by (intros x; by case_match).
  rewrite H1. simpl.
  split; intros Ht.
  - destruct (Z.ltb_spec (5 * 60 * 1000000000) (now - t0)); [lia | done].
  - destruct (Z.ltb_spec (5 * 60 * 1000000000) (now - t0)); [done | lia].
Qed.

Lemma status_push_then_health_check_witness :
  let lb := add_server 0 "game-1" "10.0.0.1" 9001 1000 (new_balancer LEAST_LOAD) in
  let lb1 := update_server_status 1000 "game-1" 0.25 0.5 true lb in
  let pushed := {| id := "game-1"; host := "10.0.0.1"; port := 9001;
                   current_connections := 0; max_connections := 1000;
                   cpu_usage := 0.25; memory_usage := 0.5;
                   is_healthy := true; last_health_check := 1000 |} in
  get_server "game-1" lb1 = Some pushed
  ∧ get_server "game-1" (perform_health_check 300000001000 lb1) = Some pushed
  ∧ is_healthy <$> get_server "game-1" (perform_health_check 300000001001 lb1)
    = Some false.
Proof.
  cbv zeta.
  pose (s := {| id := "game-1"; host := "10.0.0.1"; port := 9001;
                current_connections := 0; max_connections := 1000;
                cpu_usage := 0; memory_usage := 0;
                is_healthy := true; last_health_check := 0 |}).
  split_and!.
  - apply (status_push_then_health_check 1000 0 "game-1" 0.25 0.5 true _ s).
    reflexivity.
  - apply (status_push_then_health_check 1000 300000001000 "game-1" 0.25 0.5
             true _ s); [reflexivity | vm_compute; discriminate].
  - apply (status_push_then_health_check 1000 300000001001 "game-1" 0.25 0.5
             true _ s); [reflexivity | reflexivity].
Defined.

(** The health check only ever lowers the flag.  It keeps every node in
    place with its id, counters, gauges and time stamp; a node is healthy
    afterwards exactly when it was healthy before and its last status push is
    at most five minutes old; it leaves the assignments alone; and running it
    twice at the same instant is the same as running it once. *)
Theorem health_check_only_lowers now lb :
  length (servers_ (perform_health_check now lb)) = length (servers_ lb)
  ∧ (∀ i s, servers_ lb !! i = Some s →
       ∃ s', servers_ (perform_health_check now lb) !! i = Some s'
             ∧ id s' = id s
             ∧ current_connections s' = current_connections s
             ∧ max_connections s' = max_connections s
             ∧ cpu_usage s' = cpu_usage s
             ∧ memory_usage s' = memory_usage s
             ∧ last_health_check s' = last_health_check s
             ∧ (is_healthy s' = true
                ↔ is_healthy s = true
                  ∧ now - last_health_check s <= 300000000000))
  ∧ connection_to_server_ (perform_health_check now lb) = connection_to_server_ lb
  ∧ perform_health_check now (perform_health_check now lb)
    = perform_health_check now lb.
Proof.
  unfold perform_health_check. cbn [servers_ set_servers connection_to_server_].
  split_and!.
  - apply length_fmap.
  - intros i s Hs. rewrite list_lookup_fmap, Hs. simpl. eexists. split; [done|].
    destruct (Z.ltb_spec (5 * 60 * 1000000000) (now - last_health_check s));
      simpl; split_and!; try done.
    + split; [done | intros [_ ?]; lia].
    + split; [intros ?; split; [done | lia] | by intros [? _]].
  - done.
  - unfold set_servers. cbn [strategy_ round_robin_index_ connection_to_server_].
    f_equal. rewrite <- list_fmap_compose. apply list_fmap_ext.
    intros i s _. simpl.
    destruct (5 * 60 * 1000000000 <? now - last_health_check s) eqn:E; simpl;
      by rewrite E.
Qed.

(** *** Assignment undone by release *)

Lemma set_current_connections_twice n m s :
  set_current_connections n (set_current_connections m s)
  = set_current_connections n s.
Proof. done. Qed.

Lemma set_current_connections_same s :
  set_current_connections (current_connections s) s = s.
Proof. by destruct s. Qed.

(** Releasing a connection from the server it has just been assigned to
    gives the balancer back as it was before the assignment, when the
    connection was not mapped before. *)
Theorem release_undoes_assign sid cid lb :
  (assign_connection sid cid lb).1 = true →
  connection_to_server_ lb !! cid = None →
  (∀ s, get_server sid lb = Some s →
        0 <= current_connections s ∧ max_connections s <= UINT32_MAX) →
  release_connection sid cid (assign_connection sid cid lb).2 = lb.
Proof.
  unfold assign_connection, get_server.
  destruct (find_server sid (servers_ lb)) as [[i s]|] eqn:Hf; [|done].
  destruct (can_accept_connection s) eqn:Hc; [|done]. simpl.
  intros _ Hcid Hwf. destruct (Hwf s eq_refl) as [H0 Hmax].
  apply can_accept_connection_spec in Hc as (_ & Hlt & _).
  unfold release_connection. cbn [servers_ set_servers set_connection_to_server].
  rewrite (find_server_insert sid _ i s _ Hf) by done.
  cbn [servers_ set_servers set_connection_to_server connection_to_server_
       current_connections set_current_connections].
  rewrite list_insert_insert_eq.
  rewrite (u32_id (current_connections s + 1)) by lia.
  replace (current_connections s + 1 - 1) with (current_connections s) by lia.
  rewrite u32_id by lia.
  apply find_server_Some in Hf as (Hi & _).
  unfold set_connection_to_server, set_servers.
  cbn [strategy_ servers_ round_robin_index_ connection_to_server_].
  rewrite delete_insert_id by done.
  rewrite list_insert_id by (by destruct s).
  by destruct lb.
Qed.

Lemma release_undoes_assign_witness :
  let lb := add_server 0 "game-1" "10.0.0.1" 9001 1000 (new_balancer LEAST_LOAD) in
  release_connection "game-1" "conn_1"
    (assign_connection "game-1" "conn_1" lb).2 = lb.
Proof.
  cbv zeta. apply release_undoes_assign.
  - reflexivity.
  - reflexivity.
  - intros s [= <-]. split; vm_compute; discriminate.
Defined.

(** *** What a selection can return *)

Lemma min_element_from_elem {A : Type} (comp : A → A → bool) (x : A) (l : list A) :
  min_element_from comp x l ∈ x :: l.
Proof.
  revert x. induction l as [|y l IH]; intros x; simpl; [by left|].
  specialize (IH (if comp y x then y else x)).
  apply elem_of_cons in IH as [->|IH].
  - destruct (comp y x); [right; left | left].
  - by do 2 right.
Qed.

Lemma min_element_elem {A : Type} (comp : A → A → bool) (l : list A) :
  l ≠ [] → ∃ x, min_element comp l = Some x ∧ x ∈ l.
Proof.
  destruct l as [|x l]; [done|]. intros _. simpl.
  eexists. split; [done|]. apply min_element_from_elem.
Qed.

Lemma pick_weighted_elem random_value current_weight l sid :
  pick_weighted random_value current_weight l = Some sid →
  ∃ s, s ∈ l ∧ sid = id s.
Proof.
  revert current_weight.
  induction l as [|s l IH]; intros current_weight; simpl; [done|].
  case_match.
  - intros [= <-]. exists s. split; [by left | done].
  - intros (s' & Hin & ->)%IH. exists s'. split; [by right | done].
Qed.

Lemma id_at_elem (l : list ServerNode) (h : Z) :
  l ≠ [] →
  ∃ s, s ∈ l ∧ id_at l (u32 (h mod Z.of_nat (length l))) = id s.
Proof.
  intros Hl. destruct (id_at_in_range l h Hl) as (s & Hs & Hid).
  exists s. split; [|done]. apply list_elem_of_lookup. eauto.
Qed.

Lemma select_round_robin_nonempty lb :
  servers_ lb ≠ [] →
  select_round_robin lb
  = (id_at (servers_ lb)
           (u32 (round_robin_index_ lb mod Z.of_nat (length (servers_ lb)))),
     set_round_robin_index (u32 (round_robin_index_ lb + 1)) lb).
Proof. intros H. unfold select_round_robin. by destruct (servers_ lb). Qed.

Lemma select_ip_hash_nonempty hasher client_ip lb :
  servers_ lb ≠ [] →
  select_ip_hash hasher client_ip lb
  = id_at (servers_ lb)
          (u32 (hasher client_ip mod Z.of_nat (length (servers_ lb)))).
Proof. intros H. unfold select_ip_hash. by destruct (servers_ lb). Qed.

Lemma select_weighted_round_robin_nonempty uniform_real lb :
  servers_ lb ≠ [] →
  select_weighted_round_robin uniform_real lb
  = match pick_weighted
            (uniform_real (foldl (λ acc s, (acc + weight s)%float) 0%float
                                 (servers_ lb)))
            0%float (servers_ lb) with
    | Some sid => sid
    | None => from_option id "" (last (servers_ lb))
    end.
Proof.
  intros H. unfold select_weighted_round_robin. by destruct (servers_ lb).
Qed.

(** Whenever some node is healthy, every strategy returns the id of a node
    that is registered: a selection never makes an id up and never returns the
    empty string in place of one. *)
Theorem selection_returns_registered_id hasher uniform_real client_ip lb :
  healthy_servers lb ≠ [] →
  ∃ s, s ∈ servers_ lb
       ∧ (select_server hasher uniform_real client_ip lb).1 = id s.
Proof.
  intros Hh. rewrite select_server_some_healthy by done.
  assert (servers_ lb ≠ []) as Hne.
  { intros E. apply Hh. unfold healthy_servers. by rewrite E. }
  destruct (strategy_ lb); cbn [fst].
  - rewrite select_round_robin_nonempty by done. cbn [fst]. by apply id_at_elem.
  - unfold select_least_connections.
    destruct (min_element_elem
                (λ a b, current_connections a <? current_connections b)
                (servers_ lb) Hne) as (x & -> & Hx). eauto.
  - unfold select_least_load.
    destruct (min_element_elem
                (λ a b, (get_load_score a <? get_load_score b)%float)
                (servers_ lb) Hne) as (x & -> & Hx). eauto.
  - rewrite select_weighted_round_robin_nonempty by done.
    case_match eqn:Hp.
    + by apply pick_weighted_elem in Hp.
    + destruct (last (servers_ lb)) as [s|] eqn:Hl.
      * exists s. split; [|done]. apply last_Some in Hl as [l' ->].
        apply elem_of_app. right. by left.
      * apply last_None in Hl. done.
  - rewrite select_ip_hash_nonempty by done. by apply id_at_elem.
Qed.

Lemma selection_returns_registered_id_witness :
  let lb := add_server 1 "game-2" "10.0.0.2" 9001 500
              (add_server 0 "game-1" "10.0.0.1" 9001 1000
                 (new_balancer WEIGHTED_ROUND_ROBIN)) in
  ∃ s, s ∈ servers_ lb
       ∧ (select_server (λ _, 0) (λ w, w) "192.168.0.17" lb).1 = id s.
Proof.
  cbv zeta. apply selection_returns_registered_id. discriminate.
Defined.

(** *** Round robin *)

Lemma round_robin_after hasher uniform_real client_ip lb k :
  strategy_ lb = ROUND_ROBIN →
  healthy_servers lb ≠ [] →
  0 <= round_robin_index_ lb →
  round_robin_index_ lb + Z.of_nat k <= UINT32_MAX →
  Nat.iter k (λ l, (select_server hasher uniform_real client_ip l).2) lb
  = set_round_robin_index (round_robin_index_ lb + Z.of_nat k) lb.
Proof.
  intros Hs Hh H0. induction k as [|k IH]; intros Hk.
  - simpl. rewrite Z.add_0_r. by destruct lb.
  - rewrite Nat.iter_succ. rewrite IH by lia.
    rewrite select_server_some_healthy by done.
    cbn [strategy_ set_round_robin_index]. rewrite Hs.
    rewrite select_round_robin_nonempty.
    + cbn [snd]. unfold set_round_robin_index.
      cbn [strategy_ servers_ round_robin_index_ connection_to_server_].
      rewrite u32_id by lia. f_equal. lia.
    + intros E. simpl in E. apply Hh. unfold healthy_servers. by rewrite E.
Qed.

(** Successive round-robin selections walk through [servers_] in order:
    starting from index [i], the selection made after [k] earlier ones returns
    the id at position [(i + k) mod servers_.size()], for as long as the
    32-bit index has not wrapped. *)
Theorem round_robin_visits_in_order hasher uniform_real client_ip lb k :
  strategy_ lb = ROUND_ROBIN →
  healthy_servers lb ≠ [] →
  0 <= round_robin_index_ lb →
  round_robin_index_ lb + Z.of_nat k <= UINT32_MAX →
  let lbk := Nat.iter k (λ l, (select_server hasher uniform_real client_ip l).2) lb in
  ∃ s, servers_ lb
         !! Z.to_nat ((round_robin_index_ lb + Z.of_nat k)
                      mod Z.of_nat (length (servers_ lb))) = Some s
       ∧ (select_server hasher uniform_real client_ip lbk).1 = id s.
Proof.
  intros Hs Hh H0 Hk. cbv zeta.
  rewrite round_robin_after by done.
  assert (servers_ lb ≠ []) as Hne.
  { intros E. apply Hh. unfold healthy_servers. by rewrite E. }
  rewrite select_server_some_healthy by done.
  cbn [strategy_ set_round_robin_index]. rewrite Hs.
  rewrite select_round_robin_nonempty by done.
  cbn [fst servers_ round_robin_index_ set_round_robin_index].
  assert (0 < Z.of_nat (length (servers_ lb))) as Hlen
    by (destruct (servers_ lb); [done | simpl; lia]).
  pose proof (Z.mod_pos_bound (round_robin_index_ lb + Z.of_nat k) _ Hlen) as Hm.
  pose proof (Z.mod_le (round_robin_index_ lb + Z.of_nat k) _ ltac:(lia) Hlen).
  rewrite u32_id by lia.
  destruct (lookup_lt_is_Some_2 (servers_ lb)
              (Z.to_nat ((round_robin_index_ lb + Z.of_nat k)
                         mod Z.of_nat (length (servers_ lb)))))
    as [s Hsx]; [lia|].
  exists s. split; [done|]. unfold id_at. by rewrite Hsx.
Qed.

Lemma round_robin_visits_in_order_witness :
  let lb := add_server 2 "game-3" "10.0.0.3" 9001 1000
              (add_server 1 "game-2" "10.0.0.2" 9001 1000
                 (add_server 0 "game-1" "10.0.0.1" 9001 1000
                    (new_balancer ROUND_ROBIN))) in
  let lbk := Nat.iter 4 (λ l, (select_server (λ _, 0) (λ w, w) "" l).2) lb in
  ∃ s, servers_ lb
         !! Z.to_nat ((round_robin_index_ lb + Z.of_nat 4)
                      mod Z.of_nat (length (servers_ lb))) = Some s
       ∧ (select_server (λ _, 0) (λ w, w) "" lbk).1 = id s.
Proof.
  cbv zeta. apply round_robin_visits_in_order.
  - reflexivity.
  - discriminate.
  - reflexivity.
  - vm_compute. discriminate.
Defined.

End LoadBalancerLaws.

(** ** WebSocket connection and handler *)

Module WebSocketLaws.
Import WebSocketHandler.

(** *** Records and the lock *)

Lemma set_objects_same h : set_objects (objects h) h = h.
Proof. by destruct h. Qed.

Lemma unlock_lock h h1 :
  connections_mutex_ h = false → lock h = Some h1 → unlock h1 = h.
Proof.
  unfold lock, unlock. intros Hm. rewrite Hm. intros [= <-].
  destruct h; simpl in *. by subst.
Qed.

Lemma lock_free h :
  connections_mutex_ h = false → lock h = Some (set_mutex true h).
Proof. unfold lock. by intros ->. Qed.

Lemma lock_held h : connections_mutex_ h = true → lock h = None.
Proof. unfold lock. by intros ->. Qed.

Lemma on_disconnection_free cid h :
  connections_mutex_ h = false →
  on_disconnection cid h
  = Some (set_connections (delete cid (connections_ h)) h,
          if disconnection_handler_ h then [DisconnectionCallback cid] else []).
Proof.
  intros Hm. unfold on_disconnection. rewrite lock_free by done. simpl.
  do 2 f_equal. destruct h; simpl in *. by subst.
Qed.

Lemma on_disconnection_held cid h :
  connections_mutex_ h = true → on_disconnection cid h = None.
Proof. intros Hm. unfold on_disconnection. by rewrite lock_held. Qed.

(** *** A connection on its own *)

(** Closing is idempotent: the first [close] of a connected connection marks
    it disconnected, closes the socket and runs the close handler once; any
    further [close] does nothing, and so does a [send_message] after it. *)
Theorem close_is_idempotent message (c : C.connection) :
  (C.close c).2
  = (if C.connected_ c
     then if C.close_handler_ c then [C.WsClose; C.CloseHandler] else [C.WsClose]
     else [])
  ∧ C.connected_ (C.close c).1 = false
  ∧ C.is_connected (C.close c).1 = false
  ∧ C.connection_id_ (C.close c).1 = C.connection_id_ c
  ∧ C.close (C.close c).1 = ((C.close c).1, [])
  ∧ C.send_message message (C.close c).1 = ((C.close c).1, []).
Proof.
  unfold C.close, C.send_message, C.is_connected, C.call_close_handler.
  destruct (C.connected_ c) eqn:E, (C.close_handler_ c) eqn:E';
    simpl; rewrite ?E; done.
Qed.

(** *** Accepting *)

Lemma issued_id_inj n m : issued_id n = issued_id m → n = m.
Proof.
  unfold issued_id. intros H.
  apply (inj (String.append "conn_")) in H. by apply (inj pretty) in H.
Qed.

Lemma u64_id z : 0 <= z < 2 ^ 64 → u64 z = z.
Proof. intros H. unfold u64. by apply Z.mod_small. Qed.

Lemma on_accept_success h :
  connections_mutex_ h = false →
  0 <= next_connection_id_ h < 2 ^ 64 - 1 →
  let cid := issued_id (next_connection_id_ h) in
  let c := {| C.connection_id_ := cid; C.connected_ := false;
              C.message_handler_ := true; C.close_handler_ := true |} in
  on_accept C.ec_success h
  = Some (set_objects (objects h ++ [c])
            (set_connections (<[cid := length (objects h)]> (connections_ h))
               (set_next_connection_id (next_connection_id_ h + 1) h)),
          Socket cid C.AsyncAccept
          :: (if connection_handler_ h then [ConnectionCallback cid] else [])
          ++ [AcceptorAsyncAccept]).
Proof.
  intros Hm Hn. cbv zeta. unfold on_accept. cbn [C.failed].
  rewrite u64_id by lia.
  rewrite lock_free by done. cbn [mbind option_bind].
  unfold on_object.
  cbn [objects unlock set_mutex set_connections set_objects
       set_next_connection_id connections_ ].
  rewrite lookup_app_r by done. rewrite Nat.sub_diag. cbn [lookup list_lookup].
  cbn [C.perform_handshake fst snd dispatch dispatch_one mbind option_bind
       on_connection app].
  rewrite insert_app_r_alt by done. rewrite Nat.sub_diag. cbn [insert list_insert].
  destruct h; simpl in *. subst. done.
Qed.

(** An accepted socket gets an id no live connection has: the registry
    grows by exactly one entry, the new connection is stored not yet
    connected, its handshake is started, the connection callback runs and
    the acceptor is re-armed, in that order; the registry stays well formed.
    (The counter must not be at the end of its 64-bit range.) *)
Theorem accept_registers_fresh_id h :
  registry_ok h →
  connections_mutex_ h = false →
  0 <= next_connection_id_ h < 2 ^ 64 - 1 →
  let cid := issued_id (next_connection_id_ h) in
  ∃ h', on_accept C.ec_success h
        = Some (h', Socket cid C.AsyncAccept
                    :: (if connection_handler_ h then [ConnectionCallback cid] else [])
                    ++ [AcceptorAsyncAccept])
        ∧ connections_ h !! cid = None
        ∧ connections_ h' = <[cid := length (objects h)]> (connections_ h)
        ∧ size (connections_ h') = S (size (connections_ h))
        ∧ objects h' !! length (objects h)
          = Some {| C.connection_id_ := cid; C.connected_ := false;
                    C.message_handler_ := true; C.close_handler_ := true |}
        ∧ next_connection_id_ h' = next_connection_id_ h + 1
        ∧ connections_mutex_ h' = false
        ∧ registry_ok h'.
Proof.
  intros Hok Hm Hn. cbv zeta.
  assert (connections_ h !! issued_id (next_connection_id_ h) = None) as Hfresh.
  { destruct (connections_ h !! issued_id (next_connection_id_ h)) as [addr|] eqn:E;
      [|done].
    destruct (Hok _ _ E) as [(n & Hlt & Heq) _].
    apply issued_id_inj in Heq. lia. }
  eexists. split; [by apply on_accept_success|].
  cbn [connections_ objects next_connection_id_ connections_mutex_
       set_objects set_connections set_next_connection_id].
  split_and!; try done.
  - by apply map_size_insert_None.
  - rewrite lookup_app_r by done. by rewrite Nat.sub_diag.
  - intros cid addr.
    cbn [connections_ objects next_connection_id_ set_objects set_connections
         set_next_connection_id].
    destruct (decide (cid = issued_id (next_connection_id_ h))) as [->|Hne].
    + rewrite lookup_insert_eq. intros [= <-]. split.
      * exists (next_connection_id_ h). split; [lia | done].
      * eexists. rewrite lookup_app_r by done. rewrite Nat.sub_diag.
        split; [done|]. done.
    + rewrite lookup_insert_ne by done. intros Hc.
      destruct (Hok _ _ Hc) as [(n & Hlt & Heq) (c & Hc1 & Hc2)].
      split.
      * exists n. split; [lia | done].
      * exists c. split; [|done]. by apply lookup_app_l_Some.
Qed.

Lemma accept_registers_fresh_id_witness :
  let h := new_handler 8080 in
  ∃ h', on_accept C.ec_success h
        = Some (h', Socket "conn_1" C.AsyncAccept
                    :: (if connection_handler_ h then [ConnectionCallback "conn_1"] else [])
                    ++ [AcceptorAsyncAccept])
        ∧ connections_ h !! "conn_1" = None
        ∧ connections_ h' = <["conn_1" := length (objects h)]> (connections_ h)
        ∧ size (connections_ h') = S (size (connections_ h))
        ∧ objects h' !! length (objects h)
          = Some {| C.connection_id_ := "conn_1"; C.connected_ := false;
                    C.message_handler_ := true; C.close_handler_ := true |}
        ∧ next_connection_id_ h' = next_connection_id_ h + 1
        ∧ connections_mutex_ h' = false
        ∧ registry_ok h'.
Proof.
  cbv zeta. apply (accept_registers_fresh_id (new_handler 8080)).
  - intros cid addr H. cbn [new_handler connections_] in H.
    by rewrite lookup_empty in H.
  - reflexivity.
  - split; vm_compute; [discriminate | reflexivity].
Defined.

Lemma on_accept_result h :
  connections_mutex_ h = false →
  let cid := issued_id (next_connection_id_ h) in
  let c := {| C.connection_id_ := cid; C.connected_ := false;
              C.message_handler_ := true; C.close_handler_ := true |} in
  on_accept C.ec_success h
  = Some (set_objects (objects h ++ [c])
            (set_connections (<[cid := length (objects h)]> (connections_ h))
               (set_next_connection_id (u64 (next_connection_id_ h + 1)) h)),
          Socket cid C.AsyncAccept
          :: (if connection_handler_ h then [ConnectionCallback cid] else [])
          ++ [AcceptorAsyncAccept]).
Proof.
  intros Hm. cbv zeta. unfold on_accept. cbn [C.failed].
  rewrite lock_free by done. cbn [mbind option_bind].
  unfold on_object.
  cbn [objects unlock set_mutex set_connections set_objects
       set_next_connection_id connections_ ].
  rewrite lookup_app_r by done. rewrite Nat.sub_diag. cbn [lookup list_lookup].
  cbn [C.perform_handshake fst snd dispatch dispatch_one mbind option_bind
       on_connection app].
  rewrite insert_app_r_alt by done. rewrite Nat.sub_diag. cbn [insert list_insert].
  destruct h; simpl in *. subst. done.
Qed.

(** The acceptor is re-armed exactly when the accept succeeded.  After an
    accept error [on_accept] returns with the handler unchanged and nothing
    started, so no further accept is pending; after a successful accept it
    returns having started the handshake, run the connection callback and,
    last, started the next accept. *)
Theorem accept_error_ends_the_accept_loop ec h :
  (C.failed ec = true → on_accept ec h = Some (h, []))
  ∧ (C.failed ec = false →
     connections_mutex_ h = false →
     let cid := issued_id (next_connection_id_ h) in
     ∃ h', on_accept ec h
           = Some (h', Socket cid C.AsyncAccept
                       :: (if connection_handler_ h
                           then [ConnectionCallback cid] else [])
                       ++ [AcceptorAsyncAccept])
           ∧ connections_ h' !! cid = Some (length (objects h))).
Proof.
  split.
  - intros He. unfold on_accept. by rewrite He.
  - intros He Hm. cbv zeta. destruct ec; try discriminate.
    eexists. split; [by apply on_accept_result|].
    cbn [connections_ set_objects set_connections]. apply lookup_insert_eq.
Qed.

Lemma accept_error_ends_the_accept_loop_witness :
  on_accept C.ec_failure (new_handler 8080) = Some (new_handler 8080, [])
  ∧ ∃ h', on_accept C.ec_success (new_handler 8080)
          = Some (h', [Socket "conn_1" C.AsyncAccept; AcceptorAsyncAccept])
          ∧ connections_ h' !! "conn_1" = Some 0%nat.
Proof.
  split.
  - apply (accept_error_ends_the_accept_loop C.ec_failure (new_handler 8080)).
    reflexivity.
  - apply (accept_error_ends_the_accept_loop C.ec_success (new_handler 8080));
      reflexivity.
Defined.

(** *** Failed completions *)

Lemma on_object_at addr f h c :
  objects h !! addr = Some c →
  on_object addr f h
  = dispatch (C.connection_id_ c) (f c).2
             (set_objects (<[addr := (f c).1]> (objects h)) h).
Proof. intros H. unfold on_object. by rewrite H. Qed.

(** A failed read on a registered connection marks it disconnected, takes it
    out of the registry and then runs the disconnection callback.  The
    callback is not tied to the registry entry: a later failed completion of
    the same connection, here of a write, runs it again although the id is no
    longer registered. *)
Theorem failed_completions_notify_each_time ec1 ec2 message h cid addr c :
  connections_mutex_ h = false →
  connections_ h !! cid = Some addr →
  objects h !! addr = Some c →
  C.connection_id_ c = cid →
  C.close_handler_ c = true →
  C.failed ec1 = true →
  C.failed ec2 = true →
  let notify :=
    if disconnection_handler_ h then [DisconnectionCallback cid] else [] in
  ∃ h1 h2,
    on_object addr (C.on_read ec1 message) h = Some (h1, notify)
    ∧ connections_ h1 = delete cid (connections_ h)
    ∧ C.connected_ <$> objects h1 !! addr = Some false
    ∧ on_object addr (C.on_write ec2) h1 = Some (h2, notify)
    ∧ connections_ h2 = connections_ h1.
Proof.
  intros Hm Hreg Hobj Hid Hch He1 He2. cbv zeta.
  pose proof (lookup_lt_Some _ _ _ Hobj) as Hlt.
  assert (on_object addr (C.on_read ec1 message) h
          = Some (set_connections (delete cid (connections_ h))
                    (set_objects (<[addr := C.set_connected false c]> (objects h)) h),
                  if disconnection_handler_ h
                  then [DisconnectionCallback cid] else [])) as H1.
  { rewrite (on_object_at _ _ _ _ Hobj). unfold C.on_read. rewrite He1.
    unfold C.call_close_handler. rewrite Hch, Hid. cbn [fst snd dispatch dispatch_one].
    rewrite on_disconnection_free by done. simpl. by rewrite app_nil_r. }
  do 2 eexists. split; [exact H1|].
  cbn [connections_ objects set_connections set_objects].
  split; [done|]. split; [by rewrite list_lookup_insert_eq|].
  rewrite (on_object_at _ _ _ (C.set_connected false c))
    by (cbn [objects set_connections set_objects];
        by rewrite list_lookup_insert_eq).
  unfold C.on_write. rewrite He2. unfold C.call_close_handler.
  cbn [C.close_handler_ C.set_connected C.connection_id_ fst snd dispatch
       dispatch_one].
  rewrite Hch, Hid. cbn [dispatch dispatch_one].
  rewrite on_disconnection_free by done.
  cbn [mbind option_bind fst snd connections_ set_connections set_objects
       disconnection_handler_ app].
  rewrite app_nil_r. split; [done|].
  by rewrite delete_delete_eq.
Qed.

Lemma failed_completions_notify_each_time_witness :
  let h := {| port_ := 8080;
              objects := [{| C.connection_id_ := "conn_1"; C.connected_ := true;
                             C.message_handler_ := true;
                             C.close_handler_ := true |}];
              connections_ := {["conn_1" := 0%nat]};
              connections_mutex_ := false;
              message_handler_ := true; connection_handler_ := true;
              disconnection_handler_ := true;
              running_ := true; next_connection_id_ := 2 |} in
  ∃ h1 h2,
    on_object 0 (C.on_read C.ec_closed "") h
    = Some (h1, [DisconnectionCallback "conn_1"])
    ∧ connections_ h1 = delete "conn_1" (connections_ h)
    ∧ C.connected_ <$> objects h1 !! 0%nat = Some false
    ∧ on_object 0 (C.on_write C.ec_failure) h1
      = Some (h2, [DisconnectionCallback "conn_1"])
    ∧ connections_ h2 = connections_ h1.
Proof.
  cbv zeta.
  refine (failed_completions_notify_each_time C.ec_closed C.ec_failure ""
            _ "conn_1" 0%nat _ _ _ _ _ _ _ _); reflexivity.
Defined.

(** *** A failed handshake *)

(** A failed handshake is reported to nobody: the connection that
    [on_accept] has just registered stays in the registry, not connected,
    with no read started and no callback run. *)
Theorem failed_handshake_stays_registered ec h :
  connections_mutex_ h = false →
  0 <= next_connection_id_ h < 2 ^ 64 - 1 →
  C.failed ec = true →
  let cid := issued_id (next_connection_id_ h) in
  let addr := length (objects h) in
  ∃ h1 out,
    on_accept C.ec_success h = Some (h1, out)
    ∧ on_object addr (C.on_handshake ec) h1 = Some (h1, [])
    ∧ has_connection cid h1 = Some true
    ∧ C.is_connected <$> objects h1 !! addr = Some false.
Proof.
  intros Hm Hn He. cbv zeta.
  pose proof (on_accept_success h Hm Hn) as Hacc. cbv zeta in Hacc.
  match type of Hacc with _ = Some (?x, _) => set (h1 := x) in * end.
  assert (objects h1 !! length (objects h)
          = Some {| C.connection_id_ := issued_id (next_connection_id_ h);
                    C.connected_ := false; C.message_handler_ := true;
                    C.close_handler_ := true |}) as Hobj.
  { subst h1. cbn [objects set_objects].
    rewrite lookup_app_r by done. by rewrite Nat.sub_diag. }
  exists h1. eexists. split; [exact Hacc|]. split_and!.
  - rewrite (on_object_at _ _ _ _ Hobj).
    unfold C.on_handshake. rewrite He. cbn [fst snd dispatch].
    rewrite list_insert_id by done. by rewrite set_objects_same.
  - unfold has_connection. rewrite lock_free by (subst h1; done).
    subst h1.
    cbn [mbind option_bind connections_ set_mutex set_objects set_connections].
    by rewrite lookup_insert_eq.
  - by rewrite Hobj.
Qed.

Lemma failed_handshake_stays_registered_witness :
  let h := new_handler 8080 in
  ∃ h1 out,
    on_accept C.ec_success h = Some (h1, out)
    ∧ on_object (length (objects h)) (C.on_handshake C.ec_failure) h1
      = Some (h1, [])
    ∧ has_connection (issued_id (next_connection_id_ h)) h1 = Some true
    ∧ C.is_connected <$> objects h1 !! length (objects h) = Some false.
Proof.
  cbv zeta. apply (failed_handshake_stays_registered C.ec_failure (new_handler 8080)).
  - reflexivity.
  - split; vm_compute; [discriminate | reflexivity].
  - reflexivity.
Defined.

(** *** Starting *)

(** A failure to open, configure, bind or listen is not reported: [start]
    returns with the handler marked running and no accept started, and since
    a running handler ignores [start], the start cannot be tried again until
    the handler has been stopped. *)
Theorem failed_start_leaves_handler_running open_ec option_ec bind_ec listen_ec h :
  running_ h = false →
  C.failed open_ec || C.failed option_ec || C.failed bind_ec
    || C.failed listen_ec = true →
  let r := start open_ec option_ec bind_ec listen_ec h in
  running_ r.1 = true
  ∧ r.2 = []
  ∧ ∀ ec1 ec2 ec3 ec4, start ec1 ec2 ec3 ec4 r.1 = (r.1, []).
Proof.
  intros Hr Hf. cbv zeta.
  assert (start open_ec option_ec bind_ec listen_ec h = (set_running true h, []))
    as ->.
  { unfold start. rewrite Hr.
    destruct (C.failed open_ec), (C.failed option_ec), (C.failed bind_ec),
             (C.failed listen_ec); done. }
  split_and!; [done | done |]. intros. unfold start. done.
Qed.

Lemma failed_start_leaves_handler_running_witness :
  let r := start C.ec_success C.ec_success C.ec_failure C.ec_success
                 (new_handler 8080) in
  running_ r.1 = true
  ∧ r.2 = []
  ∧ ∀ ec1 ec2 ec3 ec4, start ec1 ec2 ec3 ec4 r.1 = (r.1, []).
Proof.
  cbv zeta. apply failed_start_leaves_handler_running; reflexivity.
Defined.

(** *** Broadcasting *)

Lemma on_object_send message addr h :
  on_object addr (send_if_connected message) h
  = Some (h, match objects h !! addr with
             | Some c => if C.connected_ c
                         then [Socket (C.connection_id_ c) (C.AsyncWrite message)]
                         else []
             | None => []
             end).
Proof.
  unfold on_object. destruct (objects h !! addr) as [c|] eqn:Hc; [|done].
  unfold send_if_connected, C.is_connected, C.send_message.
  destruct (C.connected_ c) eqn:E; simpl;
    by rewrite list_insert_id, set_objects_same by done.
Qed.

Lemma for_each_send message addrs h :
  for_each (send_if_connected message) addrs h
  = Some (h, omap (λ addr,
                     c ← objects h !! addr;
                     if C.connected_ c
                     then Some (Socket (C.connection_id_ c) (C.AsyncWrite message))
                     else None) addrs).
Proof.
  induction addrs as [|addr addrs IH]; [done|].
  cbn [for_each omap]. rewrite on_object_send.
  cbn [mbind option_bind fst snd]. rewrite IH.
  cbn [mbind option_bind fst snd].
  destruct (objects h !! addr) as [c|] eqn:Hc; simpl; rewrite Hc; simpl;
    [by destruct (C.connected_ c) | done].
Qed.

Lemma NoDup_omap_keyed {A B : Type} (key : B → string)
    (f : string * A → option B) (l : list (string * A)) :
  NoDup l.*1 →
  (∀ x y, x ∈ l → f x = Some y → key y = x.1) →
  NoDup (omap f l).
Proof.
  intros Hnd Hkey. induction l as [|x l IH]; [constructor|].
  apply NoDup_cons in Hnd as [Hx Hnd]. cbn [omap list_omap].
  assert (NoDup (omap f l)) as IH'.
  { apply IH; [done|]. intros x' y' Hin. apply Hkey. by right. }
  destruct (f x) as [y|] eqn:Hy; [|done].
  apply NoDup_cons. split; [|done].
  intros (x' & Hin & Hx')%list_elem_of_omap.
  apply Hx. apply list_elem_of_fmap. exists x'. split; [|done].
  rewrite <- (Hkey x y) by (by left || done).
  apply Hkey; [by right | done].
Qed.

Lemma length_omap_le {A B : Type} (f : A → option B) (l : list A) :
  (length (omap f l) <= length l)%nat.
Proof.
  induction l as [|x l IH]; [done|]. cbn [omap list_omap].
  destruct (f x); simpl; lia.
Qed.

(** [broadcast] changes nothing in the handler and starts a write of the
    message on exactly the registered connections that are connected: one
    write per such connection, no connection twice, and none for a connection
    that is registered but not connected. *)
Theorem broadcast_reaches_the_connected message h :
  registry_ok h →
  connections_mutex_ h = false →
  ∃ out, broadcast message h = Some (h, out)
         ∧ NoDup out
         ∧ (length out <= size (connections_ h))%nat
         ∧ ∀ e, e ∈ out ↔
                ∃ cid addr c, connections_ h !! cid = Some addr
                              ∧ objects h !! addr = Some c
                              ∧ C.connected_ c = true
                              ∧ e = Socket cid (C.AsyncWrite message).
Proof.
  intros Hok Hm. unfold broadcast. rewrite lock_free by done.
  cbn [mbind option_bind]. rewrite for_each_send.
  cbn [mbind option_bind fst snd connections_ objects set_mutex].
  eexists. split.
  { f_equal. f_equal. unfold unlock. destruct h; simpl in *. by subst. }
  set (f := λ addr : nat,
              c ← objects h !! addr;
              if C.connected_ c
              then Some (Socket (C.connection_id_ c) (C.AsyncWrite message))
              else None).
  assert (omap f (map_to_list (connections_ h)).*2
          = omap (λ x : string * nat, f x.2) (map_to_list (connections_ h)))
    as Homap.
  { generalize (map_to_list (connections_ h)).
    induction l as [|x l IH]; [done|]. rewrite fmap_cons.
    cbn [omap list_omap]. by rewrite IH. }
  split_and!.
  - rewrite Homap.
    apply (NoDup_omap_keyed
             (λ e, match e with Socket cid _ => cid | _ => "" end)).
    + apply NoDup_fst_map_to_list.
    + intros [cid addr] y Hin Hy. simpl in Hy. unfold f in Hy.
      apply elem_of_map_to_list in Hin.
      destruct (Hok _ _ Hin) as [_ (c' & Hc' & Hid & _)].
      rewrite Hc' in Hy. simpl in Hy.
      destruct (C.connected_ c'); [|done]. by injection Hy as <-.
  - etrans; [apply length_omap_le|].
    by rewrite length_fmap, length_map_to_list.
  - intros e. rewrite list_elem_of_omap. split.
    + intros (addr & Hin & He).
      apply list_elem_of_fmap in Hin as ([cid addr'] & -> & Hin).
      apply elem_of_map_to_list in Hin. unfold f in He. simpl in He.
      destruct (objects h !! addr') as [c|] eqn:Hc; [|done]. simpl in He.
      destruct (C.connected_ c) eqn:E; [|done]. injection He as <-.
      destruct (Hok _ _ Hin) as [_ (c' & Hc' & Hid & _)].
      exists cid, addr', c. split_and!; try done. congruence.
    + intros (cid & addr & c & Hreg & Hc & E & ->).
      exists addr. split.
      * apply list_elem_of_fmap. exists (cid, addr). split; [done|].
        by apply elem_of_map_to_list.
      * unfold f. rewrite Hc. simpl. rewrite E.
        destruct (Hok _ _ Hreg) as [_ (c' & Hc' & Hid & _)]. congruence.
Qed.

Lemma broadcast_reaches_the_connected_witness :
  let h := {| port_ := 8080;
              objects := [{| C.connection_id_ := "conn_1"; C.connected_ := true;
                             C.message_handler_ := true;
                             C.close_handler_ := true |};
                          {| C.connection_id_ := "conn_2"; C.connected_ := false;
                             C.message_handler_ := true;
                             C.close_handler_ := true |}];
              connections_ := {["conn_1" := 0%nat; "conn_2" := 1%nat]};
              connections_mutex_ := false;
              message_handler_ := true; connection_handler_ := true;
              disconnection_handler_ := true;
              running_ := true; next_connection_id_ := 3 |} in
  ∃ out, broadcast "tick" h = Some (h, out)
         ∧ NoDup out
         ∧ (length out <= size (connections_ h))%nat
         ∧ ∀ e, e ∈ out ↔
                ∃ cid addr c, connections_ h !! cid = Some addr
                              ∧ objects h !! addr = Some c
                              ∧ C.connected_ c = true
                              ∧ e = Socket cid (C.AsyncWrite "tick").
Proof.
  cbv zeta. apply broadcast_reaches_the_connected; [|reflexivity].
  intros cid addr H. cbn [connections_] in H.
  apply lookup_insert_Some in H as [[<- <-]|[Hne H]].
  - split; [exists 1; split; [simpl; lia | reflexivity]|].
    eexists. split; [reflexivity|done].
  - apply lookup_singleton_Some in H as [<- <-].
    split; [exists 2; split; [simpl; lia | reflexivity]|].
    eexists. split; [reflexivity|done].
Defined.

(** *** Stopping *)

Lemma on_object_close_idle addr h :
  (∀ c, objects h !! addr = Some c → C.connected_ c = false) →
  on_object addr C.close h = Some (h, []).
Proof.
  intros Hc. unfold on_object.
  destruct (objects h !! addr) as [c|] eqn:E; [|done].
  unfold C.close. rewrite (Hc c eq_refl). simpl.
  by rewrite list_insert_id, set_objects_same by done.
Qed.

Lemma for_each_close_idle addrs h :
  Forall (λ addr, ∀ c, objects h !! addr = Some c → C.connected_ c = false) addrs →
  for_each C.close addrs h = Some (h, []).
Proof.
  induction 1 as [|addr addrs Hc _ IH]; [done|].
  cbn [for_each]. rewrite on_object_close_idle by done.
  cbn [mbind option_bind fst snd]. by rewrite IH.
Qed.

Lemma for_each_close_open addrs h :
  connections_mutex_ h = true →
  Exists (λ addr, ∃ c, objects h !! addr = Some c
                       ∧ C.connected_ c = true
                       ∧ C.close_handler_ c = true) addrs →
  for_each C.close addrs h = None.
Proof.
  intros Hm Hex. revert h Hm Hex.
  induction addrs as [|addr addrs IH]; intros h Hm Hex.
  { by apply Exists_nil in Hex. }
  cbn [for_each].
  destruct (objects h !! addr) as [c|] eqn:E.
  - destruct (C.connected_ c) eqn:Ec.
    + rewrite (on_object_at _ _ _ _ E).
      assert (C.close c
              = (C.set_connected false c,
                 C.WsClose :: (if C.close_handler_ c then [C.CloseHandler] else [])))
        as -> by (unfold C.close, C.call_close_handler; by rewrite Ec).
      destruct (C.close_handler_ c) eqn:Eh.
      * cbn [fst snd dispatch dispatch_one mbind option_bind].
        by rewrite on_disconnection_held.
      * cbn [fst snd dispatch dispatch_one mbind option_bind].
        rewrite IH; [done | done |].
        apply Exists_cons in Hex as [(c' & Hc' & ? & ?)|Hex]; [congruence|].
        eapply Exists_impl; [exact Hex|].
        intros addr' (c' & Hc' & H1 & H2). exists c'. split; [|done].
        cbn [objects set_objects].
        destruct (decide (addr' = addr)) as [->|Hne]; [congruence|].
        by rewrite list_lookup_insert_ne.
    + rewrite on_object_close_idle by (intros c' Hc'; congruence).
      cbn [mbind option_bind fst snd].
      rewrite IH; [done | done |].
      apply Exists_cons in Hex as [(c' & Hc' & ? & ?)|Hex]; [congruence | done].
  - rewrite on_object_close_idle by (intros c' Hc'; congruence).
    cbn [mbind option_bind fst snd].
    rewrite IH; [done | done |].
    apply Exists_cons in Hex as [(c' & Hc' & ? & ?)|Hex]; [congruence | done].
Qed.

(** [stop] closes every registered connection while it holds
    [connections_mutex_].  Closing a connected connection runs its close
    handler, which calls [on_disconnection], which locks the same mutex
    again: with a connected connection in the registry a running handler's
    [stop] has no defined result.  With none it empties the registry and
    clears the running flag, after which a further [stop] does nothing. *)
Theorem stop_relocks_the_registry_mutex h :
  registry_ok h →
  connections_mutex_ h = false →
  running_ h = true →
  (stop h = None ↔
   ∃ cid addr c, connections_ h !! cid = Some addr
                 ∧ objects h !! addr = Some c
                 ∧ C.connected_ c = true)
  ∧ ((∀ cid addr c, connections_ h !! cid = Some addr →
                     objects h !! addr = Some c → C.connected_ c = false) →
     ∃ h', stop h = Some (h', [])
           ∧ connections_ h' = ∅
           ∧ running_ h' = false
           ∧ connections_mutex_ h' = false
           ∧ objects h' = objects h
           ∧ next_connection_id_ h' = next_connection_id_ h
           ∧ get_connection_count h' = Some 0%nat
           ∧ stop h' = Some (h', [])).
Proof.
  intros Hok Hm Hr.
  assert (stop h
          = r ← for_each C.close (map_to_list (connections_ h)).*2
                  (set_mutex true (set_running false h));
            Some (unlock (set_connections ∅ r.1), r.2)) as Hstop.
  { unfold stop. rewrite Hr. cbn [negb]. by rewrite lock_free by done. }
  set (open := λ addr : nat, C.connected_ <$> objects h !! addr = Some true).
  destruct (decide (Exists open (map_to_list (connections_ h)).*2)) as [Hex|Hnex].
  - assert (stop h = None) as Hnone.
    { rewrite Hstop, for_each_close_open; [done | done |].
      apply Exists_exists in Hex as (addr & Hin & Hopen).
      apply Exists_exists. exists addr. split; [done|].
      apply list_elem_of_fmap in Hin as ([cid addr'] & -> & Hin).
      apply elem_of_map_to_list in Hin.
      destruct (Hok _ _ Hin) as [_ (c & Hc & _ & _ & Hch)].
      exists c. cbn [objects set_mutex set_running]. split; [done|].
      unfold open in Hopen. simpl in Hopen. rewrite Hc in Hopen.
      by injection Hopen as ->. }
    apply Exists_exists in Hex as (addr & Hin & Hopen).
    apply list_elem_of_fmap in Hin as ([cid addr'] & -> & Hin).
    apply elem_of_map_to_list in Hin.
    unfold open in Hopen. simpl in Hopen.
    destruct (objects h !! addr') as [c|] eqn:Hc; [|done].
    injection Hopen as Hopen.
    split.
    + split; [|done]. intros _. by exists cid, addr', c.
    + intros Hidle. rewrite (Hidle _ _ _ Hin Hc) in Hopen. done.
  - assert (stop h = Some (set_running false (set_connections ∅ h), [])) as Hsome.
    { rewrite Hstop, for_each_close_idle.
      - cbn [mbind option_bind fst snd]. do 2 f_equal.
        unfold unlock. destruct h; simpl in *. by subst.
      - apply Forall_forall. intros addr Hin c Hc.
        cbn [objects set_mutex set_running] in Hc.
        destruct (C.connected_ c) eqn:E; [|done].
        exfalso. apply Hnex, Exists_exists. exists addr. split; [done|].
        unfold open. by rewrite Hc, <- E. }
    split.
    + split; [by rewrite Hsome|].
      intros (cid & addr & c & Hreg & Hc & E). exfalso.
      apply Hnex, Exists_exists. exists addr. split.
      * apply list_elem_of_fmap. exists (cid, addr). split; [done|].
        by apply elem_of_map_to_list.
      * unfold open. by rewrite Hc, <- E.
    + intros _. eexists. split; [exact Hsome|].
      split_and!; try done.
      unfold get_connection_count. rewrite lock_free by done.
      cbn [mbind option_bind connections_ set_mutex set_running set_connections].
      by rewrite map_size_empty.
Qed.

Lemma stop_relocks_the_registry_mutex_witness :
  let h connected :=
    {| port_ := 8080;
       objects := [{| C.connection_id_ := "conn_1"; C.connected_ := connected;
                      C.message_handler_ := true;
                      C.close_handler_ := true |}];
       connections_ := {["conn_1" := 0%nat]};
       connections_mutex_ := false;
       message_handler_ := true; connection_handler_ := true;
       disconnection_handler_ := true;
       running_ := true; next_connection_id_ := 2 |} in
  stop (h true) = None
  ∧ ∃ h', stop (h false) = Some (h', [])
          ∧ connections_ h' = ∅
          ∧ running_ h' = false
          ∧ connections_mutex_ h' = false
          ∧ objects h' = objects (h false)
          ∧ next_connection_id_ h' = next_connection_id_ (h false)
          ∧ get_connection_count h' = Some 0%nat
          ∧ stop h' = Some (h', []).
Proof.
  cbv zeta.
  assert (∀ b, registry_ok
                 {| port_ := 8080;
                    objects := [{| C.connection_id_ := "conn_1";
                                   C.connected_ := b;
                                   C.message_handler_ := true;
                                   C.close_handler_ := true |}];
                    connections_ := {["conn_1" := 0%nat]};
                    connections_mutex_ := false;
                    message_handler_ := true; connection_handler_ := true;
                    disconnection_handler_ := true;
                    running_ := true; next_connection_id_ := 2 |}) as Hok.
  { intros b cid addr H. cbn [connections_] in H.
    apply lookup_singleton_Some in H as [<- <-].
    split; [exists 1; split; [simpl; lia | reflexivity]|].
    eexists. split; [reflexivity|done]. }
  split.
  - match goal with |- stop ?h = None =>
      destruct (stop_relocks_the_registry_mutex h (Hok true) eq_refl eq_refl)
        as [[_ H] _]
    end.
    apply H. exists "conn_1", 0%nat. eexists. split_and!; reflexivity.
  - match goal with |- ∃ h', stop ?h = _ ∧ _ =>
      destruct (stop_relocks_the_registry_mutex h (Hok false) eq_refl eq_refl)
        as [_ H]
    end.
    apply H. intros cid addr c Hreg Hc. cbn [connections_] in Hreg.
    apply lookup_singleton_Some in Hreg as [<- <-].
    by injection Hc as <-.
Defined.

End WebSocketLaws.
